(** * WakaWeather: the forecast confidence engine of weather_confidence.py

    A shallow embedding of the engine functions of
    [AI_Forcasting (python backend)/weather_confidence.py], and of the
    [/confidence] handler of [api_server.py] that calls them, with the
    properties the specification states about them and further properties
    read off the code.

    Modelling conventions.
    - A Python number (an [int] or a finite [float] read from JSON) is an
      exact rational [Q]; comparisons are the mathematical ones (as Python's
      mixed int/float comparisons are).  The arithmetic of the confidence
      score is exact, which its clamp, bounds and symmetry do not depend on;
      the products of the unit conversions are rounded to doubles as Python
      rounds them ([round_double]).  Infinities and NaN are outside the
      model.
    - A Python [str] is a [string] holding its UTF-8 bytes.  Byte order on
      UTF-8 is code-point order.  [lower] maps the bytes [A]..[Z] only: the
      characters outside ASCII whose lower case holds an ASCII letter
      (U+0130, to [i] and a combining dot; U+212A, to [k]) cannot complete an
      occurrence of the words searched for here.
    - A Python exception is a value of [exn]; a computation that may raise has
      type [result A]. *)

From Stdlib Require Import ZArith QArith Qabs String Ascii List Bool.
From Stdlib Require Import Lia Lqa Sorted Permutation DecimalString.
From Stdlib Require OrdersEx.
Import ListNotations.

Local Open Scope Q_scope.

(** ** Exceptions and fallible computations *)

Inductive exn : Type :=
| KeyError
| IndexError
| TypeError
| AttributeError
| ValueError
| JSONDecodeError
| RequestException
| OverflowError.

Definition result (A : Type) : Type := (exn + A)%type.

Definition ret {A : Type} (a : A) : result A := inr a.
Definition raise {A : Type} (e : exn) : result A := inl e.

Definition bind {A B : Type} (m : result A) (k : A -> result B) : result B :=
  match m with
  | inl e => inl e
  | inr a => k a
  end.

Notation "x <- m ;; k" := (bind m (fun x => k))
  (at level 61, m at next level, right associativity).

(** ** Numbers *)

Definition Qltb (a b : Q) : bool :=
  match a ?= b with
  | Lt => true
  | _ => false
  end.

(** [a >= b] of Python. *)
Definition Qgeb (a b : Q) : bool := Qle_bool b a.

(** [max(a, b)]: the first argument is kept unless the second is greater. *)
Definition py_max2 (a b : Q) : Q := if Qltb a b then b else a.

(** [min(a, b)]: the first argument is kept unless the second is smaller. *)
Definition py_min2 (a b : Q) : Q := if Qltb b a then b else a.

(** [min(v)] and [max(v)] of a list: [ValueError] on the empty list. *)
Definition py_min (v : list Q) : result Q :=
  match v with
  | [] => raise ValueError
  | x :: t => ret (fold_left py_min2 t x)
  end.

Definition py_max (v : list Q) : result Q :=
  match v with
  | [] => raise ValueError
  | x :: t => ret (fold_left py_max2 t x)
  end.

(** ** The forecast record

    The dictionary a normalizer returns, with its numeric fields read as
    numbers: keys [source], [temp], [rain], [condition], [wind]. *)

Record forecast : Type := mkForecast {
  source : string;
  temp : Q;
  rain : Q;
  condition : string;
  wind : Q
}.

(** ** Confidence engine *)

Definition confidence_label (s : Q) : string :=
  if Qgeb s 85 then "High"%string
  else if Qgeb s 60 then "Moderate"%string
  else "Low"%string.

Definition weighted_confidence (f1 f2 : forecast) : Q :=
  let td := Qabs (temp f1 - temp f2) in
  let rd := Qabs (rain f1 - rain f2) in
  py_max2 0 (py_min2 (100 - (td * 4 + rd * 5)) 100).

(** The specification's [clamp(x, lo, hi)], written from its words. *)
Definition clamp (x lo hi : Q) : Q :=
  if Qltb x lo then lo else if Qltb hi x then hi else x.

(** The specification's score formula. *)
Definition spec_score (f1 f2 : forecast) : Q :=
  clamp (100 - (Qabs (temp f1 - temp f2) * 4 + Qabs (rain f1 - rain f2) * 5))
        0 100.

(** ** Strings *)

Local Open Scope string_scope.

(** [str.lower] on one byte: only [A]..[Z] change. *)
Definition lower_ascii (c : ascii) : ascii :=
  let n := nat_of_ascii c in
  if ((65 <=? n) && (n <=? 90))%nat then ascii_of_nat (n + 32) else c.

Fixpoint lower (s : string) : string :=
  match s with
  | EmptyString => EmptyString
  | String c t => String (lower_ascii c) (lower t)
  end.

(** [needle in hay] on two strings. *)
Fixpoint str_in (needle hay : string) : bool :=
  if prefix needle hay then true
  else match hay with
       | EmptyString => false
       | String _ t => str_in needle t
       end.

(** A value that is [None] or a [str]: the [cond] argument of the engine. *)
Definition pystr : Type := option string.

(** Truth value of [cond]: [None] and the empty string are falsy. *)
Definition truthy (cond : pystr) : bool :=
  match cond with
  | None => false
  | Some s => negb (s =? "")
  end.

(** [cond.lower()]: [None] has no such attribute. *)
Definition str_lower (cond : pystr) : result string :=
  match cond with
  | None => raise AttributeError
  | Some s => ret (lower s)
  end.

(** ** Formatting [{x:.1f}]

    The value is rounded to the nearest tenth, ties to the even tenth, and
    printed with one digit after the point. *)

Definition round_half_even (q : Q) : Z :=
  let n := Qnum q in
  let d := Zpos (Qden q) in
  let fl := (n / d)%Z in
  let r2 := (2 * (n mod d))%Z in
  if (r2 <? d)%Z then fl
  else if (d <? r2)%Z then (fl + 1)%Z
  else if Z.even fl then fl else (fl + 1)%Z.

Definition tenths (q : Q) : Z := round_half_even (Qabs q * 10).

Definition digits (z : Z) : string :=
  NilZero.string_of_uint (N.to_uint (Z.to_N z)).

Definition render_tenths (t : Z) : string :=
  digits (t / 10) ++ "." ++ digits (t mod 10).

Definition format_1f (q : Q) : string :=
  (if Qltb q 0 then "-" else "") ++ render_tenths (tenths q).

(** ** Severity detector *)

Definition storm_msg : string := "⚠️ Storm or cyclone risk".
Definition heavy_rain_msg : string := "⚠️ Heavy rainfall expected".
Definition strong_wind_msg (wind : Q) : string :=
  "⚠️ Strong winds expected (" ++ format_1f wind ++ " m/s)".

(** [cond and ("storm" in cond.lower() or "cyclone" in cond.lower())]:
    [and] and [or] evaluate their right operand only when needed. *)
Definition storm_text (cond : pystr) : result bool :=
  if truthy cond then
    l1 <- str_lower cond ;;
    if str_in "storm" l1 then ret true
    else l2 <- str_lower cond ;; ret (str_in "cyclone" l2)
  else ret false.

Definition detect_severe (cond : pystr) (rain wind : Q)
  : result (bool * option string) :=
  b <- storm_text cond ;;
  if b then ret (true, Some storm_msg)
  else if Qltb 10 rain then ret (true, Some heavy_rain_msg)
  else if Qltb 10 wind then ret (true, Some (strong_wind_msg wind))
  else ret (false, None).

(** The specification's "contains, case-insensitively": some piece of the
    text is the word up to the case of its letters. *)
Definition contains_nocase (word text : string) : Prop :=
  exists pre mid post, text = pre ++ mid ++ post /\ lower mid = word.

(** Rule 1 of the specification's decision order. *)
Definition storm_or_cyclone (text : string) : Prop :=
  contains_nocase "storm" text \/ contains_nocase "cyclone" text.

(** Rules 2 to 4: the classification by the two thresholds alone. *)
Definition by_thresholds (rain wind : Q) : bool * option string :=
  if Qltb 10 rain then (true, Some heavy_rain_msg)
  else if Qltb 10 wind then (true, Some (strong_wind_msg wind))
  else (false, None).

(** ** Summary aggregator *)

Record summary : Type := mkSummary {
  temp_range : Q * Q;
  rain_range : Q * Q;
  conditions : list string;
  temp_unc : Q;
  rain_unc : Q
}.

(** [uncertainty_bounds]; [pstdev] is [statistics.pstdev] of the Python
    library, the population standard deviation, taken as a parameter. *)
Definition uncertainty_bounds (pstdev : list Q -> Q) (v : list Q) : Q :=
  if (1 <? List.length v)%nat then pstdev v else 0.

(** [sorted] on strings. *)
Fixpoint insert_sorted (x : string) (l : list string) : list string :=
  match l with
  | [] => [x]
  | y :: t => if String.leb x y then x :: l else y :: insert_sorted x t
  end.

Definition sorted (l : list string) : list string :=
  fold_right insert_sorted [] l.

(** The set comprehension [{f["condition"] for f in forecasts}]: the
    distinct condition strings, in some order. *)
Definition condition_set (forecasts : list forecast) : list string :=
  nodup string_dec (map condition forecasts).

Definition summarize (pstdev : list Q -> Q) (forecasts : list forecast)
  : result summary :=
  let temps := map temp forecasts in
  let rains := map rain forecasts in
  let conds := sorted (condition_set forecasts) in
  tmin <- py_min temps ;;
  tmax <- py_max temps ;;
  rmin <- py_min rains ;;
  rmax <- py_max rains ;;
  ret {| temp_range := (tmin, tmax);
         rain_range := (rmin, rmax);
         conditions := conds;
         temp_unc := uncertainty_bounds pstdev temps;
         rain_unc := uncertainty_bounds pstdev rains |}.

(** The plain minimum and maximum of a list of numbers. *)
Definition is_min (m : Q) (v : list Q) : Prop :=
  In m v /\ Forall (fun x => m <= x) v.

Definition is_max (m : Q) (v : list Q) : Prop :=
  In m v /\ Forall (fun x => x <= m) v.

(** Strictly increasing in the byte-wise lexicographic order. *)
Definition increasing (l : list string) : Prop :=
  Sorted (fun a b => String.ltb a b = true) l.

(** The population variance: the mean of the squared deviations from the
    mean. *)
Definition Qsum (v : list Q) : Q := fold_right Qplus 0 v.

Definition mean (v : list Q) : Q :=
  Qsum v / inject_Z (Z.of_nat (List.length v)).

Definition pvariance (v : list Q) : Q :=
  Qsum (map (fun x => (x - mean v) * (x - mean v)) v)
  / inject_Z (Z.of_nat (List.length v)).

(** The population standard deviation of a list of two numbers, half their
    distance; a stand-in for [statistics.pstdev] on such lists. *)
Definition pstdev_pair (v : list Q) : Q :=
  match v with
  | [a; b] => Qabs (a - b) / 2
  | _ => 0
  end.

(** ** Recommendation generator *)

Definition RECOMMENDATIONS_SUNNY : list string :=
  [ "Visit the beaches of Pacific Harbour";
    "Take a trip to Colo-i-Suva Forest Park";
    "Catch the sunset from Tamavua Hills";
    "Go reef diving near Beqa Lagoon" ].

Definition RECOMMENDATIONS_RAINY : list string :=
  [ "Visit TappooCity or MHCC for indoor shopping";
    "Relax at a resort with covered lounges";
    "Go to the cinema or enjoy indoor entertainment";
    "Try local dishes in an indoor food court" ].

Definition uncertain_msg : string :=
  "Forecast uncertain. Prepare for all conditions.".

(** [sample] stands for [random.sample]: the source of randomness. *)
Definition adaptive_recommendation
    (sample : list string -> nat -> list string)
    (cond : pystr) (label : string) : result string :=
  if label =? "Low" then ret uncertain_msg
  else
    l1 <- str_lower cond ;;
    rainy <- (if str_in "rain" l1 then ret true
              else l2 <- str_lower cond ;; ret (str_in "storm" l2)) ;;
    if (rainy : bool)
    then ret (String.concat ", " (sample RECOMMENDATIONS_RAINY 2%nat))
    else ret (String.concat ", " (sample RECOMMENDATIONS_SUNNY 2%nat)).

(** ** JSON values and the Python operations applied to them

    A parsed response body.  A [JObj] holds the items of a Python [dict],
    read by key; numbers are [int] or [float], both [JNum]. *)

#[warnings="-register-all"]
Inductive json : Type :=
| JNull
| JBool (b : bool)
| JNum (q : Q)
| JStr (s : string)
| JArr (items : list json)
| JObj (fields : list (string * json)).

Fixpoint assoc (k : string) (m : list (string * json)) : option json :=
  match m with
  | [] => None
  | (k', v) :: t => if k' =? k then Some v else assoc k t
  end.

(** A continuation byte of UTF-8: [10xxxxxx]. *)
Definition is_continuation (c : ascii) : bool :=
  let n := nat_of_ascii c in ((128 <=? n) && (n <? 192))%nat.

(** The characters (code points) of a string, each with its bytes. *)
Fixpoint utf8_chars (s : string) : list string :=
  match s with
  | EmptyString => []
  | String c t =>
      match utf8_chars t with
      | [] => [String c EmptyString]
      | h :: r =>
          match h with
          | String c' _ =>
              if is_continuation c' then String c h :: r
              else String c EmptyString :: h :: r
          | EmptyString => String c EmptyString :: r
          end
      end
  end.

(** [v[k]] with a string key. *)
Definition getitem (v : json) (k : string) : result json :=
  match v with
  | JObj m => match assoc k m with
              | Some x => ret x
              | None => raise KeyError
              end
  | _ => raise TypeError
  end.

(** [v[i]] with an index [i >= 0]. *)
Definition getindex (v : json) (i : nat) : result json :=
  match v with
  | JArr l => match nth_error l i with
              | Some x => ret x
              | None => raise IndexError
              end
  | JStr s => match nth_error (utf8_chars s) i with
              | Some c => ret (JStr c)
              | None => raise IndexError
              end
  | JObj _ => raise KeyError
  | _ => raise TypeError
  end.

(** [v.get(k, default)]. *)
Definition dict_get (v : json) (k : string) (default : json) : result json :=
  match v with
  | JObj m => ret (match assoc k m with
                   | Some x => x
                   | None => default
                   end)
  | _ => raise AttributeError
  end.

(** [v.startswith(p)]. *)
Definition startswith (v : json) (p : string) : result bool :=
  match v with
  | JStr s => ret (prefix p s)
  | _ => raise AttributeError
  end.

Definition is_str (t : string) (v : json) : bool :=
  match v with
  | JStr s => s =? t
  | _ => false
  end.

(** [t in v] for a string [t]: a piece of a string, an element of a list,
    a key of a dict. *)
Definition contains_str (t : string) (v : json) : result bool :=
  match v with
  | JStr s => ret (str_in t s)
  | JArr l => ret (existsb (is_str t) l)
  | JObj m => ret (match assoc t m with Some _ => true | None => false end)
  | _ => raise TypeError
  end.

Fixpoint list_index (t : string) (l : list json) : option nat :=
  match l with
  | [] => None
  | x :: r => if is_str t x then Some O else option_map S (list_index t r)
  end.

(** Position, in characters, of the first occurrence of [t] in [s]. *)
Fixpoint str_index (t s : string) : option nat :=
  if prefix t s then Some O
  else match s with
       | EmptyString => None
       | String c r =>
           option_map (fun n => if is_continuation c then n else S n)
                      (str_index t r)
       end.

(** [v.index(t)] for a string [t]. *)
Definition index_str (v : json) (t : string) : result nat :=
  match v with
  | JArr l => match list_index t l with
              | Some i => ret i
              | None => raise ValueError
              end
  | JStr s => match str_index t s with
              | Some i => ret i
              | None => raise ValueError
              end
  | _ => raise AttributeError
  end.

(** The values [for e in v] runs through. *)
Definition py_iter (v : json) : result (list json) :=
  match v with
  | JArr l => ret l
  | JStr s => ret (map JStr (utf8_chars s))
  | JObj m => ret (map (fun kv => JStr (fst kv)) m)
  | _ => raise TypeError
  end.

(** ** Double arithmetic

    [pow2 s] is 2 to the power [s]. *)
Definition pow2 (s : Z) : Q :=
  if (0 <=? s)%Z then inject_Z (2 ^ s) else 1 # Z.to_pos (2 ^ (- s)).

(** For [a > 0], the [e] with [2^e <= a < 2^(e+1)]. *)
Definition exponent (a : Q) : Z :=
  let e0 := (Z.log2 (Qnum a) - Z.log2 (Zpos (Qden a)))%Z in
  if Qle_bool (pow2 e0) a then e0 else (e0 - 1)%Z.

(** The IEEE 754 double nearest to [q], ties to the even mantissa: 53
    significant bits, and steps of [2^-1074] below [2^-1022]. *)
Definition round_double (q : Q) : Q :=
  if Qeq_bool q 0 then 0
  else
    let a := Qabs q in
    let s := Z.max (exponent a - 52) (-1074) in
    let m := round_half_even (a / pow2 s) in
    (if Qltb q 0 then - inject_Z m else inject_Z m) * pow2 s.

(** [float(x)] of a number: an [int] of magnitude [2^1024] and more after
    rounding is too large to convert. *)
Definition to_double (q : Q) : result Q :=
  let d := round_double q in
  if Qle_bool (pow2 1024) (Qabs d) then raise OverflowError else ret d.

(** The number a value is in arithmetic and in [==], if any. *)
Definition as_number (v : json) : option Q :=
  match v with
  | JNum q => Some q
  | JBool b => Some (if b then 1 else 0)
  | _ => None
  end.

(** [q * c] for a number [q] and a float literal [c]: [q] is converted to
    a double and the product is rounded to a double.  (A product beyond the
    double range is [inf] in Python; it does not arise with the factors
    below 1 used here.) *)
Definition float_times (q c : Q) : result Q :=
  a <- to_double q ;; ret (round_double (a * round_double c)).

(** [v * c] for a float literal [c]; a [bool] counts as 0 or 1, and a value
    that is no number cannot be multiplied. *)
Definition mul_float (v : json) (c : Q) : result json :=
  match as_number v with
  | Some q => x <- float_times q c ;; ret (JNum x)
  | None => raise TypeError
  end.

(** [v in l] for a list [l] of numbers. *)
Definition num_in (v : json) (l : list Q) : bool :=
  match as_number v with
  | Some q => existsb (Qeq_bool q) l
  | None => false
  end.

(** ** The provider call

    [requests.get] raises (network error, timeout) or returns a response.  A
    response is falsy exactly when its status is a client or server error
    (400..599); its [json()] raises when the body is not JSON. *)

Record Response : Type := mkResponse {
  status_code : Z;
  body : option json
}.

Inductive http_outcome : Type :=
| HttpRaises (e : exn)
| HttpReturns (r : Response).

Definition ok (r : Response) : bool :=
  negb ((400 <=? status_code r) && (status_code r <? 600))%Z.

Definition response_json (r : Response) : result json :=
  match body r with
  | Some j => ret j
  | None => raise JSONDecodeError
  end.

Definition retry_get (o : http_outcome) : option Response :=
  match o with
  | HttpRaises _ => None
  | HttpReturns r => Some r
  end.

(** [try: ... except: return None] around a body. *)
Definition try_except_none {A : Type} (m : result (option A))
  : result (option A) :=
  match m with
  | inl _ => ret None
  | inr x => ret x
  end.

(** ** Forecast normalizers

    The dictionary a normalizer builds; the provider's values are stored as
    they are read, without validation. *)

Record raw_forecast : Type := mkRaw {
  r_source : string;
  r_temp : json;
  r_rain : json;
  r_condition : json;
  r_wind : json
}.

(** The test of the loop of [get_openweather]. *)
Definition openweather_match (target : string) (e : json) : result bool :=
  d1 <- getitem e "dt_txt" ;;
  b1 <- startswith d1 target ;;
  if (b1 : bool) then
    d2 <- getitem e "dt_txt" ;; contains_str "12:00:00" d2
  else ret false.

Definition openweather_entry (e : json) : result raw_forecast :=
  m <- getitem e "main" ;;
  t <- getitem m "temp" ;;
  rn <- dict_get e "rain" (JObj []) ;;
  r3 <- dict_get rn "3h" (JNum 0) ;;
  w <- getitem e "weather" ;;
  w0 <- getindex w 0 ;;
  desc <- getitem w0 "description" ;;
  wi <- getitem e "wind" ;;
  sp <- getitem wi "speed" ;;
  ret {| r_source := "OpenWeatherMap"; r_temp := t; r_rain := r3;
         r_condition := desc; r_wind := sp |}.

(** The [for] loop: the first matching entry is returned; running off the
    end of the list returns [None]. *)
Fixpoint openweather_loop (target : string) (entries : list json)
  : result (option raw_forecast) :=
  match entries with
  | [] => ret None
  | e :: rest =>
      b <- openweather_match target e ;;
      if (b : bool) then f <- openweather_entry e ;; ret (Some f)
      else openweather_loop target rest
  end.

Definition openweather_body (target : string) (o : http_outcome)
  : result (option raw_forecast) :=
  match retry_get o with
  | None => ret None
  | Some r =>
      if negb (ok r) then ret None
      else
        data <- response_json r ;;
        l <- dict_get data "list" (JArr []) ;;
        entries <- py_iter l ;;
        openweather_loop target entries
  end.

(** [target] is tomorrow's date, [%Y-%m-%d]. *)
Definition get_openweather (target : string) (o : http_outcome)
  : result (option raw_forecast) :=
  try_except_none (openweather_body target o).

(** [r.json()["forecast"]["forecastday"][1]["day"]]. *)
Definition weatherapi_day (j : json) : result json :=
  f <- getitem j "forecast" ;;
  fd <- getitem f "forecastday" ;;
  d1 <- getindex fd 1 ;;
  getitem d1 "day".

Definition weatherapi_body (o : http_outcome)
  : result (option raw_forecast) :=
  match retry_get o with
  | None => ret None
  | Some r =>
      if negb (ok r) then ret None
      else
        j <- response_json r ;;
        day <- weatherapi_day j ;;
        t <- getitem day "avgtemp_c" ;;
        rn <- getitem day "totalprecip_mm" ;;
        c <- getitem day "condition" ;;
        ct <- getitem c "text" ;;
        mph <- getitem day "maxwind_mph" ;;
        w <- mul_float mph 0.44704 ;;
        ret (Some {| r_source := "WeatherAPI"; r_temp := t; r_rain := rn;
                     r_condition := ct; r_wind := w |})
  end.

Definition get_weatherapi (o : http_outcome) : result (option raw_forecast) :=
  try_except_none (weatherapi_body o).

Definition weatherstack_body (o : http_outcome)
  : result (option raw_forecast) :=
  match retry_get o with
  | None => ret None
  | Some r =>
      if negb (ok r) then ret None
      else
        j <- response_json r ;;
        cur <- getitem j "current" ;;
        t <- getitem cur "temperature" ;;
        rn <- getitem cur "precip" ;;
        ds <- getitem cur "weather_descriptions" ;;
        d0 <- getindex ds 0 ;;
        kmh <- getitem cur "wind_speed" ;;
        w <- mul_float kmh 0.277778 ;;
        ret (Some {| r_source := "Weatherstack"; r_temp := t; r_rain := rn;
                     r_condition := d0; r_wind := w |})
  end.

Definition get_weatherstack (o : http_outcome)
  : result (option raw_forecast) :=
  try_except_none (weatherstack_body o).

(** [data["hourly"][k]]. *)
Definition hourly (data : json) (k : string) : result json :=
  h <- getitem data "hourly" ;; getitem h k.

Definition openmeteo_body (t : string) (o : http_outcome)
  : result (option raw_forecast) :=
  match retry_get o with
  | None => ret None
  | Some r =>
      if negb (ok r) then ret None
      else
        data <- response_json r ;;
        tm <- hourly data "time" ;;
        found <- contains_str t tm ;;
        if (found : bool) then
          tm' <- hourly data "time" ;;
          i <- index_str tm' t ;;
          codes <- hourly data "weathercode" ;;
          code <- getindex codes i ;;
          let cond := if num_in code [95; 96; 99]
                      then "Storm" else "Clear or Cloudy" in
          temps <- hourly data "temperature_2m" ;;
          tv <- getindex temps i ;;
          rains <- hourly data "precipitation" ;;
          rv <- getindex rains i ;;
          winds <- hourly data "windspeed_10m" ;;
          wv <- getindex winds i ;;
          ret (Some {| r_source := "Open-Meteo"; r_temp := tv; r_rain := rv;
                       r_condition := JStr cond; r_wind := wv |})
        else ret None
  end.

(** [t] is tomorrow's date and hour, [%Y-%m-%dT12:00]. *)
Definition get_openmeteo (t : string) (o : http_outcome)
  : result (option raw_forecast) :=
  try_except_none (openmeteo_body t o).

(** The four normalizers, in the order [fetch_all] registers them. *)
Inductive provider : Type :=
| OpenWeatherMap
| WeatherAPI
| OpenMeteo
| Weatherstack.

(** What one run of the engine meets outside: the clock and the outcome of
    each provider call. *)
Record world : Type := mkWorld {
  target_date : string;
  target_hour : string;
  outcome : provider -> http_outcome
}.

Definition run_body (w : world) (p : provider)
  : result (option raw_forecast) :=
  match p with
  | OpenWeatherMap => openweather_body (target_date w) (outcome w p)
  | WeatherAPI => weatherapi_body (outcome w p)
  | OpenMeteo => openmeteo_body (target_hour w) (outcome w p)
  | Weatherstack => weatherstack_body (outcome w p)
  end.

Definition run (w : world) (p : provider) : result (option raw_forecast) :=
  match p with
  | OpenWeatherMap => get_openweather (target_date w) (outcome w p)
  | WeatherAPI => get_weatherapi (outcome w p)
  | OpenMeteo => get_openmeteo (target_hour w) (outcome w p)
  | Weatherstack => get_weatherstack (outcome w p)
  end.

(** The data model's Forecast: numbers for the three metrics and a non-empty
    text for the condition. *)
Definition well_formed (f : raw_forecast) : bool :=
  match r_temp f, r_rain f, r_wind f, r_condition f with
  | JNum _, JNum _, JNum _, JStr c => negb (c =? "")
  | _, _, _, _ => false
  end.

(** ** Fetch orchestrator

    [completed] lists the providers in the order their tasks complete, which
    the scheduler decides.  A task's exception is swallowed, an absent
    result is dropped, a present one is appended. *)
Definition collect (results : list raw_forecast)
    (res : result (option raw_forecast)) : list raw_forecast :=
  match res with
  | inr (Some f) => (results ++ [f])%list
  | _ => results
  end.

Definition fetch_all (w : world) (completed : list provider)
  : list raw_forecast :=
  fold_left collect (map (run w) completed) [].

(** The forecasts a provider contributes to the batch. *)
Definition present (w : world) (p : provider) : list raw_forecast :=
  match run w p with
  | inr (Some f) => [f]
  | _ => []
  end.

(** ** Sample data *)

(** Sample responses of the four providers for the target day 2026-11-04. *)
Definition sample_openweather : Response :=
  {| status_code := 200;
     body := Some (JObj [("list", JArr [
       JObj [("dt_txt", JStr "2026-11-04 09:00:00");
             ("main", JObj [("temp", JNum 25.2)]);
             ("weather", JArr [JObj [("description", JStr "clear sky")]]);
             ("wind", JObj [("speed", JNum 2.1)])];
       JObj [("dt_txt", JStr "2026-11-04 12:00:00");
             ("main", JObj [("temp", JNum 27.1)]);
             ("rain", JObj [("3h", JNum 0.5)]);
             ("weather", JArr [JObj [("description", JStr "light rain")]]);
             ("wind", JObj [("speed", JNum 3.6)])]])]) |}.

Definition sample_weatherapi : Response :=
  {| status_code := 200;
     body := Some (JObj [("forecast", JObj [("forecastday", JArr [
       JObj [("day", JObj [])];
       JObj [("day", JObj [("avgtemp_c", JNum 26.5);
                           ("totalprecip_mm", JNum 1.2);
                           ("condition", JObj [("text", JStr "Patchy rain")]);
                           ("maxwind_mph", JNum 10)])]])])]) |}.

Definition sample_weatherstack : Response :=
  {| status_code := 200;
     body := Some (JObj [("current", JObj [
       ("temperature", JNum 27); ("precip", JNum 0);
       ("weather_descriptions", JArr [JStr "Sunny"]);
       ("wind_speed", JNum 18)])]) |}.

Definition sample_openmeteo : Response :=
  {| status_code := 200;
     body := Some (JObj [("hourly", JObj [
       ("time", JArr [JStr "2026-11-04T11:00"; JStr "2026-11-04T12:00"]);
       ("weathercode", JArr [JNum 1; JNum 95]);
       ("temperature_2m", JArr [JNum 26; JNum 27]);
       ("precipitation", JArr [JNum 0; JNum 2.5]);
       ("windspeed_10m", JArr [JNum 3; JNum 4.5])])]) |}.

(** A 12:00 entry of OpenWeatherMap without its optional [rain] field. *)
Definition entry_no_rain : json :=
  JObj [("dt_txt", JStr "2026-11-04 12:00:00");
        ("main", JObj [("temp", JNum 27.1)]);
        ("weather", JArr [JObj [("description", JStr "clear sky")]]);
        ("wind", JObj [("speed", JNum 3.6)])].

(** A 12:00 entry whose temperature is a text instead of a number. *)
Definition entry_bad_temp : json :=
  JObj [("dt_txt", JStr "2026-11-04 12:00:00");
        ("main", JObj [("temp", JStr "warm")]);
        ("weather", JArr [JObj [("description", JStr "clear sky")]]);
        ("wind", JObj [("speed", JNum 3.6)])].

(** A response of OpenWeatherMap with the single entry [e]. *)
Definition openweather_response (e : json) : http_outcome :=
  HttpReturns {| status_code := 200;
                 body := Some (JObj [("list", JArr [e])]) |}.

(** A run where two providers answer, one call times out and one body
    lacks its fields. *)
Definition degraded_world : world :=
  {| target_date := "2026-11-04";
     target_hour := "2026-11-04T12:00";
     outcome := fun p =>
       match p with
       | OpenWeatherMap => HttpReturns sample_openweather
       | WeatherAPI => HttpRaises RequestException
       | OpenMeteo => HttpReturns sample_openmeteo
       | Weatherstack =>
           HttpReturns {| status_code := 200;
                          body := Some (JObj [("success", JBool false)]) |}
       end |}.

(** ** Provider names

    The [source] each normalizer writes into its forecast. *)
Definition provider_name (p : provider) : string :=
  match p with
  | OpenWeatherMap => "OpenWeatherMap"
  | WeatherAPI => "WeatherAPI"
  | OpenMeteo => "Open-Meteo"
  | Weatherstack => "Weatherstack"
  end.

(** The WMO weather codes [get_openmeteo] reads as a storm. *)
Definition storm_codes : list Q := [95; 96; 99].

(** The condition [get_openmeteo] derives from a weather code. *)
Definition openmeteo_condition (code : json) : string :=
  if num_in code storm_codes then "Storm" else "Clear or Cloudy".

(** ** The confidence endpoint of api_server.py

    [l[i]] on a Python list, [i >= 0]. *)
Definition list_get {A : Type} (l : list A) (i : nat) : result A :=
  match nth_error l i with
  | Some x => ret x
  | None => raise IndexError
  end.

(** [satellite_link]; [lat] and [lon] are the two numbers as Python prints
    them. *)
Definition satellite_link (lat lon : string) : string :=
  "https://zoom.earth/#view=" ++ lat ++ "," ++ lon ++ ",7z/date=now".

Definition country : string := "Fiji".

Module SourceOut.
Record t : Type := mk {
  name : string;
  temp : Q;
  rain : Q;
  wind : Q;
  condition : string
}.
End SourceOut.

Module RangePair.
Record t : Type := mk {
  min : Q;
  max : Q
}.
End RangePair.

Module Payload.
Record t : Type := mk {
  city : string;
  country : string;
  confidence : Q;
  label : string;
  temp_range : RangePair.t;
  rain_range : RangePair.t;
  conditions : list string;
  wind_max : Q;
  severe : bool;
  alert : option string;
  recommendation : string;
  satellite_url : string;
  sources : list SourceOut.t;
  generated_at : string
}.
End Payload.

Definition retry_msg : string := "Forecast uncertain. Try again shortly.".

Definition source_out (f : forecast) : SourceOut.t :=
  SourceOut.mk (source f) (temp f) (rain f) (wind f) (condition f).

(** The handler of [GET /confidence], from the batch that [fetch_all]
    returned on; [now] is the time stamp [datetime.utcnow().isoformat()]. *)
Definition confidence (pstdev : list Q -> Q)
    (sample : list string -> nat -> list string)
    (now lat lon q : string) (forecasts : list forecast)
  : result Payload.t :=
  if (List.length forecasts <? 2)%nat then
    ret (Payload.mk q country 0 "Low"
           (RangePair.mk 0 0) (RangePair.mk 0 0) []
           0 false None retry_msg (satellite_link lat lon) [] now)
  else
    f1 <- list_get forecasts 0 ;;
    f2 <- list_get forecasts 1 ;;
    let conf := weighted_confidence f1 f2 in
    let label := confidence_label conf in
    summary <- summarize pstdev forecasts ;;
    sa <- detect_severe (Some (condition f1)) (rain f1) (wind f1) ;;
    rec <- adaptive_recommendation sample (Some (condition f1)) label ;;
    let sources := map source_out forecasts in
    wm <- match sources with
          | [] => ret 0
          | _ => py_max (map SourceOut.wind sources)
          end ;;
    ret (Payload.mk q country conf label
           (RangePair.mk (fst (temp_range summary)) (snd (temp_range summary)))
           (RangePair.mk (fst (rain_range summary)) (snd (rain_range summary)))
           (conditions summary)
           wm (fst sa) (snd sa) rec (satellite_link lat lon) sources now).

(** The weighted divergence of two forecasts that the score is taken
    from. *)
Definition divergence (f1 f2 : forecast) : Q :=
  Qabs (temp f1 - temp f2) * 4 + Qabs (rain f1 - rain f2) * 5.

(** What [random.sample(l, k)] guarantees of its result: [k] elements of
    [l] taken at distinct positions. *)
Definition sample_spec (sample : list string -> nat -> list string) : Prop :=
  forall l k, (k <= List.length l)%nat -> NoDup l ->
    List.length (sample l k) = k /\ NoDup (sample l k) /\
    incl (sample l k) l.

(** Rule of [adaptive_recommendation] for the indoor list. *)
Definition rain_or_storm (text : string) : Prop :=
  contains_nocase "rain" text \/ contains_nocase "storm" text.

(** ** Units of speed

    The unit a provider's wind value is sent in is fixed by the provider
    and the request, not by the normalizer. *)
Inductive speed_unit : Type :=
| Mph
| Kmh
| Ms.

(** The speed in metres per second of [v] in the unit [u]: a mile is
    1609.344 m and an hour 3600 s. *)
Definition to_ms (u : speed_unit) (v : Q) : Q :=
  match u with
  | Mph => v * 1609.344 / 3600
  | Kmh => v * 1000 / 3600
  | Ms => v
  end.

(** [w] is the speed [v] of unit [u] in metres per second, to one part in
    100000. *)
Definition is_ms (u : speed_unit) (v w : Q) : Prop :=
  Qabs (w - to_ms u v) <= Qabs (to_ms u v) * (1 # 100000).

(** ** Places in a response body

    The value found by following keys through objects and indices through
    arrays, read off the data alone. *)
Inductive step : Type :=
| Key (k : string)
| Idx (i : nat).

Fixpoint at_path (p : list step) (v : json) : option json :=
  match p with
  | [] => Some v
  | Key k :: r =>
      match v with
      | JObj m => match assoc k m with
                  | Some x => at_path r x
                  | None => None
                  end
      | _ => None
      end
  | Idx i :: r =>
      match v with
      | JArr l => match nth_error l i with
                  | Some x => at_path r x
                  | None => None
                  end
      | _ => None
      end
  end.

(** The record of a response that holds the fields of the forecast. *)
Definition record_path (p : provider) : list step :=
  match p with
  | OpenWeatherMap => [Key "list"]
  | WeatherAPI => [Key "forecast"; Key "forecastday"; Idx 1; Key "day"]
  | OpenMeteo => [Key "hourly"]
  | Weatherstack => [Key "current"]
  end.

(** The places a normalizer reads without a default, from the record
    for WeatherAPI, Open-Meteo and Weatherstack and from the entry of the
    target time for OpenWeatherMap. *)
Definition required_paths (p : provider) : list (list step) :=
  match p with
  | OpenWeatherMap =>
      [ [Key "main"; Key "temp"];
        [Key "weather"; Idx 0; Key "description"];
        [Key "wind"; Key "speed"] ]
  | WeatherAPI =>
      [ [Key "avgtemp_c"]; [Key "totalprecip_mm"];
        [Key "condition"; Key "text"]; [Key "maxwind_mph"] ]
  | OpenMeteo =>
      [ [Key "time"]; [Key "weathercode"]; [Key "temperature_2m"];
        [Key "precipitation"]; [Key "windspeed_10m"] ]
  | Weatherstack =>
      [ [Key "temperature"]; [Key "precip"];
        [Key "weather_descriptions"]; [Key "wind_speed"] ]
  end.

(** The arrays Open-Meteo is read from at the index of the target hour. *)
Definition hourly_arrays : list string :=
  ["weathercode"; "temperature_2m"; "precipitation"; "windspeed_10m"].

(** The key of the wind value that WeatherAPI and Weatherstack multiply. *)
Definition wind_key (p : provider) : string :=
  match p with
  | WeatherAPI => "maxwind_mph"
  | Weatherstack => "wind_speed"
  | OpenWeatherMap => "wind"
  | OpenMeteo => "windspeed_10m"
  end.

(** The shape a normalizer needs its record to have: the list of entries
    for OpenWeatherMap, an object for the others. *)
Definition record_shape (p : provider) (x : json) : Prop :=
  match p with
  | OpenWeatherMap => exists l, x = JArr l
  | _ => exists d, x = JObj d
  end.

(** Whether an entry of OpenWeatherMap is the one of the target day at
    12:00, when its [dt_txt] is a text. *)
Definition at_target (target : string) (e : json) : option bool :=
  match at_path [Key "dt_txt"] e with
  | Some (JStr s) => Some (prefix target s && str_in "12:00:00" s)
  | _ => None
  end.

(** The factor by which WeatherAPI and Weatherstack multiply the wind. *)
Definition wind_factor (p : provider) : Q :=
  match p with
  | WeatherAPI => 0.44704
  | Weatherstack => 0.277778
  | _ => 1
  end.

(** ** More sample data

    An answer of Open-Meteo with its wind in km/h: 36 km/h is 10 m/s. *)
Definition openmeteo_kmh : Response :=
  {| status_code := 200;
     body := Some (JObj [("hourly", JObj [
       ("time", JArr [JStr "2026-11-04T11:00"; JStr "2026-11-04T12:00"]);
       ("weathercode", JArr [JNum 1; JNum 2]);
       ("temperature_2m", JArr [JNum 26; JNum 27]);
       ("precipitation", JArr [JNum 0; JNum 0]);
       ("windspeed_10m", JArr [JNum 30; JNum 36])])]) |}.

(** The sample answer of Weatherstack under a status that is neither 2xx
    nor an error status. *)
Definition weatherstack_redirect : Response :=
  {| status_code := 301; body := body sample_weatherstack |}.

(** A world where every provider call returns [r]. *)
Definition world_of (d h : string) (r : Response) : world :=
  {| target_date := d; target_hour := h; outcome := fun _ => HttpReturns r |}.

(** A body of WeatherAPI whose second day lacks fields. *)
Definition weatherapi_short_body : json :=
  JObj [("forecast", JObj [("forecastday",
    JArr [JObj [("day", JObj [])];
          JObj [("day", JObj [("avgtemp_c", JNum 26)])]])])].

(** Bodies of Weatherstack without a description, and with a wind that is
    a text. *)
Definition weatherstack_no_description : json :=
  JObj [("current", JObj [
    ("temperature", JNum 27); ("precip", JNum 0);
    ("weather_descriptions", JArr []);
    ("wind_speed", JNum 18)])].

Definition weatherstack_text_wind : json :=
  JObj [("current", JObj [
    ("temperature", JNum 27); ("precip", JNum 0);
    ("weather_descriptions", JArr [JStr "Sunny"]);
    ("wind_speed", JStr "18 km/h")])].

Local Close Scope string_scope.

(** * Properties *)

Lemma Qltb_lt (a b : Q) : Qltb a b = true <-> a < b.
Proof.
  unfold Qltb. rewrite Qlt_alt. destruct (a ?= b); split; congruence.
Qed.

Lemma Qltb_ge (a b : Q) : Qltb a b = false <-> b <= a.
Proof.
  split; intro H.
  - apply Qnot_lt_le. intro L. apply Qltb_lt in L. congruence.
  - destruct (Qltb a b) eqn:E; trivial.
    apply Qltb_lt in E. exfalso. apply (Qlt_not_le _ _ E H).
Qed.

Lemma Qgeb_ge (a b : Q) : Qgeb a b = true <-> b <= a.
Proof. unfold Qgeb. apply Qle_bool_iff. Qed.

Lemma Qgeb_lt (a b : Q) : Qgeb a b = false <-> a < b.
Proof.
  split; intro H.
  - apply Qnot_le_lt. intro L. apply Qgeb_ge in L. congruence.
  - destruct (Qgeb a b) eqn:E; trivial.
    apply Qgeb_ge in E. exfalso. apply (Qlt_not_le _ _ H E).
Qed.

Ltac qcases :=
  repeat match goal with
  | |- context [Qltb ?a ?b] =>
      let E := fresh "E" in
      destruct (Qltb a b) eqn:E;
      [apply Qltb_lt in E | apply Qltb_ge in E]
  | |- context [Qgeb ?a ?b] =>
      let E := fresh "E" in
      destruct (Qgeb a b) eqn:E;
      [apply Qgeb_ge in E | apply Qgeb_lt in E]
  end.

Lemma py_clamp_range (x : Q) :
  0 <= py_max2 0 (py_min2 x 100) /\ py_max2 0 (py_min2 x 100) <= 100.
Proof.
  unfold py_max2, py_min2. qcases; split; lra.
Qed.

Lemma py_clamp_spec (x : Q) :
  py_max2 0 (py_min2 x 100) == clamp x 0 100.
Proof.
  unfold py_max2, py_min2, clamp. qcases; lra.
Qed.

Lemma weighted_confidence_bounds_aux (f1 f2 : forecast) :
  weighted_confidence f1 f2 == spec_score f1 f2 /\
  0 <= weighted_confidence f1 f2 /\ weighted_confidence f1 f2 <= 100.
Proof.
  unfold weighted_confidence, spec_score. cbv zeta. split.
  - apply py_clamp_spec.
  - apply py_clamp_range.
Qed.

(** C1: [weighted_confidence f1 f2] is the specification's clamped score
    [clamp(100 - (|dtemp| * 4 + |drain| * 5), 0, 100)], and it lies in
    [0, 100] whatever the two forecasts are. *)
Theorem weighted_confidence_clamped (f1 f2 : forecast) :
  weighted_confidence f1 f2 == spec_score f1 f2 /\
  0 <= weighted_confidence f1 f2 /\ weighted_confidence f1 f2 <= 100.
Proof. apply weighted_confidence_bounds_aux. Qed.

(** X1: the score does not depend on the order of the two forecasts. *)
Lemma weighted_confidence_sym (f1 f2 : forecast) :
  weighted_confidence f1 f2 == weighted_confidence f2 f1.
Proof.
  rewrite (proj1 (weighted_confidence_bounds_aux f1 f2)).
  rewrite (proj1 (weighted_confidence_bounds_aux f2 f1)).
  unfold spec_score.
  rewrite (Qabs_Qminus (temp f1) (temp f2)).
  rewrite (Qabs_Qminus (rain f1) (rain f2)). reflexivity.
Qed.

Example weighted_confidence_far_apart :
  weighted_confidence (mkForecast "A" 0 0 "Clear" 1)
                      (mkForecast "B" 1000 250 "Storm" 30) == 0.
Proof. reflexivity. Qed.

Example weighted_confidence_agree :
  weighted_confidence (mkForecast "A" 27 1 "Clear" 1)
                      (mkForecast "B" 27 1 "Rain" 3) == 100.
Proof. reflexivity. Qed.

Example confidence_label_below_85 :
  confidence_label 84.999 = "Moderate"%string.
Proof. reflexivity. Qed.

Example confidence_label_below_60 :
  confidence_label 59.999 = "Low"%string.
Proof. reflexivity. Qed.

(** C3: the label is High exactly for scores of at least 85, Moderate exactly
    for scores in [60, 85), Low exactly below 60; 85 labels High and 60
    labels Moderate. *)
Theorem confidence_label_bands (s : Q) :
  (confidence_label s = "High"%string <-> 85 <= s) /\
  (confidence_label s = "Moderate"%string <-> 60 <= s /\ s < 85) /\
  (confidence_label s = "Low"%string <-> s < 60) /\
  confidence_label 85 = "High"%string /\
  confidence_label 60 = "Moderate"%string.
Proof.
  unfold confidence_label.
  split; [|split; [|split; [|split; reflexivity]]];
    qcases; split; intro H; try discriminate; try reflexivity;
    try match type of H with _ /\ _ => destruct H end; try split; lra.
Qed.

(** ** Strings *)

Section Strings.
Local Open Scope string_scope.

Lemma prefix_iff (n h : string) :
  prefix n h = true <-> exists post, h = n ++ post.
Proof.
  revert h. induction n as [|c n IH]; intros h; simpl.
  - destruct h; split; intros; eauto.
  - destruct h as [|c' h]; simpl.
    + split; [discriminate | intros [post E]; discriminate].
    + destruct (ascii_dec c c') as [->|N].
      * rewrite IH. split; intros [post E]; exists post; congruence.
      * split; [discriminate | intros [post E]; congruence].
Qed.

Lemma str_in_iff (n h : string) :
  str_in n h = true <-> exists pre post, h = pre ++ n ++ post.
Proof.
  induction h as [|c h IH]; cbn [str_in].
  - destruct (prefix n "") eqn:P.
    + split; trivial. intros _. apply prefix_iff in P.
      destruct P as [post E]. exists "", post. exact E.
    + split; [discriminate|]. intros [pre [post E]].
      destruct pre; simpl in E.
      * assert (prefix n "" = true) by (apply prefix_iff; eauto). congruence.
      * discriminate.
  - destruct (prefix n (String c h)) eqn:P.
    + split; trivial. intros _. apply prefix_iff in P.
      destruct P as [post E]. exists "", post. exact E.
    + rewrite IH. split.
      * intros [pre [post E]]. exists (String c pre), post.
        simpl. now rewrite E.
      * intros [pre [post E]]. destruct pre as [|c' pre]; simpl in E.
        -- assert (prefix n (String c h) = true)
             by (apply prefix_iff; eauto). congruence.
        -- injection E as _ E. eauto.
Qed.

Lemma lower_app (a b : string) : lower (a ++ b) = lower a ++ lower b.
Proof. induction a; simpl; congruence. Qed.

Lemma lower_split (t a b : string) :
  lower t = a ++ b -> exists x y, t = x ++ y /\ lower x = a /\ lower y = b.
Proof.
  revert t. induction a as [|c a IH]; intros t E; simpl in E.
  - exists "", t. auto.
  - destruct t as [|c' t]; simpl in E; [discriminate|].
    injection E as Ec E. destruct (IH _ E) as [x [y [-> [Hx Hy]]]].
    exists (String c' x), y. simpl. repeat split; congruence.
Qed.

Lemma str_in_lower_iff (w t : string) :
  lower w = w -> (str_in w (lower t) = true <-> contains_nocase w t).
Proof.
  intros Hw. rewrite str_in_iff. unfold contains_nocase. split.
  - intros [pre [post E]].
    apply lower_split in E. destruct E as [x [r [-> [Hx Hr]]]].
    apply lower_split in Hr. destruct Hr as [m [y [-> [Hm Hy]]]].
    now exists x, m, y.
  - intros [pre [mid [post [-> Hm]]]].
    exists (lower pre), (lower post).
    rewrite !lower_app. congruence.
Qed.

Lemma storm_text_iff (text : string) :
  storm_text (Some text) = inr true <-> storm_or_cyclone text.
Proof.
  unfold storm_or_cyclone.
  rewrite <- !str_in_lower_iff by reflexivity.
  unfold storm_text, truthy, str_lower, bind, ret.
  destruct text as [|c t].
  - simpl. split; [discriminate | intros [H|H]; discriminate].
  - change (negb (String c t =? "")) with true. cbv iota.
    destruct (str_in "storm" (lower (String c t))).
    + tauto.
    + destruct (str_in "cyclone" (lower (String c t))).
      * tauto.
      * split; [discriminate | intros [H|H]; discriminate].
Qed.

Lemma storm_text_total (cond : pystr) :
  exists b, storm_text cond = inr b.
Proof.
  unfold storm_text. destruct cond as [s|]; simpl.
  - destruct (negb (s =? "")); simpl; eauto.
    destruct (str_in "storm" (lower s)); simpl; eauto.
  - eauto.
Qed.

End Strings.

(** ** Rounding to one decimal *)

Lemma round_half_even_close (q : Q) :
  Qabs (q - inject_Z (round_half_even q)) <= 1 # 2.
Proof.
  destruct q as [n d]. unfold round_half_even. cbn [Qnum Qden].
  pose proof (Z.div_mod n (Zpos d) ltac:(lia)) as E.
  pose proof (Z.mod_pos_bound n (Zpos d) ltac:(lia)) as B.
  set (fl := (n / Zpos d)%Z) in *. set (r := (n mod Zpos d)%Z) in *.
  apply Qabs_Qle_condition.
  destruct (2 * r <? Zpos d)%Z eqn:C1;
    [apply Z.ltb_lt in C1 | apply Z.ltb_ge in C1;
     destruct (Zpos d <? 2 * r)%Z eqn:C2;
     [apply Z.ltb_lt in C2 | apply Z.ltb_ge in C2; destruct (Z.even fl)]];
    unfold Qle, Qminus, Qplus, Qopp, inject_Z; cbn [Qnum Qden];
    split; nia.
Qed.

Lemma tenths_close (q : Q) :
  0 <= q -> Qabs (q * 10 - inject_Z (tenths q)) <= 1 # 2.
Proof.
  intros H. unfold tenths.
  pose proof (round_half_even_close (Qabs q * 10)) as C.
  revert C. generalize (round_half_even (Qabs q * 10)). intros z C.
  rewrite (Qabs_pos q H) in C. exact C.
Qed.

Lemma tenths_nonneg (q : Q) : (0 <= tenths q)%Z.
Proof.
  unfold tenths, round_half_even.
  assert (N : (0 <= Qnum (Qabs q * 10))%Z).
  { destruct q as [n d]. cbn. lia. }
  set (n := Qnum (Qabs q * 10)) in *.
  set (d := Zpos (Qden (Qabs q * 10))).
  assert (F : (0 <= n / d)%Z) by (apply Z.div_pos; subst d; lia).
  destruct (2 * (n mod d) <? d)%Z; [lia|].
  destruct (d <? 2 * (n mod d))%Z; [lia|].
  destruct (Z.even (n / d)); lia.
Qed.

Example format_1f_wind : format_1f 12.3 = "12.3"%string.
Proof. reflexivity. Qed.

Example format_1f_int : format_1f 12 = "12.0"%string.
Proof. reflexivity. Qed.

Example format_1f_tie_even : format_1f 0.25 = "0.2"%string.
Proof. reflexivity. Qed.

Example format_1f_up : format_1f (1234567 # 100000) = "12.3"%string.
Proof. reflexivity. Qed.

(** ** Severity detector *)

Section Severity.
Local Open Scope string_scope.

Lemma detect_severe_unfold (cond : pystr) (rain wind : Q) (b : bool) :
  storm_text cond = inr b ->
  detect_severe cond rain wind =
  inr (if b then (true, Some storm_msg) else by_thresholds rain wind).
Proof.
  intros E. unfold detect_severe, by_thresholds, bind, ret. rewrite E.
  destruct b; trivial.
  destruct (Qltb 10 rain); trivial. destruct (Qltb 10 wind); trivial.
Qed.

Lemma storm_text_false (text : string) :
  ~ storm_or_cyclone text -> storm_text (Some text) = inr false.
Proof.
  intros N. destruct (storm_text_total (Some text)) as [[|] E]; trivial.
  apply storm_text_iff in E. contradiction.
Qed.

Lemma strong_wind_msg_contains (wind : Q) :
  str_in (format_1f wind) (strong_wind_msg wind) = true.
Proof.
  apply str_in_iff. unfold strong_wind_msg. eauto.
Qed.

(** C2: the rules of [detect_severe] in their order, the first match
    winning: a condition text containing "storm" or "cyclone" in any case
    gives severe with the message "Storm or cyclone risk"; otherwise
    rainfall above 10 gives severe with the message "Heavy rainfall
    expected"; otherwise wind above 10 gives severe with the message
    "Strong winds expected" holding the wind rounded to one decimal;
    otherwise the result is not severe, with no message. *)
Theorem detect_severe_rules (text : string) (rain wind : Q) :
  (storm_or_cyclone text ->
     detect_severe (Some text) rain wind
       = inr (true, Some "⚠️ Storm or cyclone risk")) /\
  (~ storm_or_cyclone text -> 10 < rain ->
     detect_severe (Some text) rain wind
       = inr (true, Some "⚠️ Heavy rainfall expected")) /\
  (~ storm_or_cyclone text -> ~ 10 < rain -> 10 < wind ->
     detect_severe (Some text) rain wind
       = inr (true, Some ("⚠️ Strong winds expected ("
                          ++ format_1f wind ++ " m/s)")) /\
     str_in (format_1f wind)
            ("⚠️ Strong winds expected (" ++ format_1f wind ++ " m/s)")
       = true /\
     format_1f wind = render_tenths (tenths wind) /\
     (Qabs (wind * 10 - inject_Z (tenths wind)) <= 1 # 2)%Q) /\
  (~ storm_or_cyclone text -> ~ 10 < rain -> ~ 10 < wind ->
     detect_severe (Some text) rain wind = inr (false, None)).
Proof.
  split; [|split; [|split]].
  - intros S. apply storm_text_iff in S.
    now rewrite (detect_severe_unfold _ _ _ _ S).
  - intros N R. rewrite (detect_severe_unfold _ _ _ _ (storm_text_false _ N)).
    unfold by_thresholds. apply Qltb_lt in R. now rewrite R.
  - intros N R W. split; [|split; [|split]].
    + rewrite (detect_severe_unfold _ _ _ _ (storm_text_false _ N)).
      unfold by_thresholds.
      apply Qnot_lt_le, Qltb_ge in R. apply Qltb_lt in W.
      now rewrite R, W.
    + apply (strong_wind_msg_contains wind).
    + unfold format_1f.
      assert (E : Qltb wind 0 = false) by (apply Qltb_ge; lra).
      now rewrite E.
    + apply tenths_close. lra.
  - intros N R W.
    rewrite (detect_severe_unfold _ _ _ _ (storm_text_false _ N)).
    unfold by_thresholds.
    apply Qnot_lt_le, Qltb_ge in R. apply Qnot_lt_le, Qltb_ge in W.
    now rewrite R, W.
Qed.

Lemma clear_skies_no_storm : ~ storm_or_cyclone "Clear skies".
Proof.
  intros S. apply storm_text_iff in S. vm_compute in S. discriminate.
Qed.

Lemma detect_severe_rules_witness :
  detect_severe (Some "Tropical Storm approaching") 0 0
    = inr (true, Some "⚠️ Storm or cyclone risk") /\
  detect_severe (Some "Clear skies") 15 0
    = inr (true, Some "⚠️ Heavy rainfall expected") /\
  detect_severe (Some "Clear skies") 0 12.3
    = inr (true, Some "⚠️ Strong winds expected (12.3 m/s)") /\
  detect_severe (Some "Clear skies") 2 1 = inr (false, None).
Proof.
  split; [|split; [|split]].
  - apply (detect_severe_rules "Tropical Storm approaching" 0 0).
    apply storm_text_iff. vm_compute. reflexivity.
  - apply (detect_severe_rules "Clear skies" 15 0).
    + exact clear_skies_no_storm.
    + reflexivity.
  - apply (detect_severe_rules "Clear skies" 0 12.3).
    + exact clear_skies_no_storm.
    + discriminate.
    + reflexivity.
  - apply (detect_severe_rules "Clear skies" 2 1).
    + exact clear_skies_no_storm.
    + discriminate.
    + discriminate.
Defined.

(** C10: with [None] or the empty string as condition, [detect_severe]
    raises nothing, skips the storm/cyclone rule and classifies by the
    rainfall and wind thresholds alone. *)
Theorem detect_severe_falsy_condition (rain wind : Q) :
  detect_severe None rain wind = inr (by_thresholds rain wind) /\
  detect_severe (Some "") rain wind = inr (by_thresholds rain wind) /\
  (10 < rain -> by_thresholds rain wind = (true, Some heavy_rain_msg)) /\
  (~ 10 < rain -> 10 < wind ->
     by_thresholds rain wind = (true, Some (strong_wind_msg wind))) /\
  (~ 10 < rain -> ~ 10 < wind -> by_thresholds rain wind = (false, None)).
Proof.
  split; [|split; [|split; [|split]]].
  - now apply (detect_severe_unfold None rain wind false).
  - now apply (detect_severe_unfold (Some "") rain wind false).
  - intros R. unfold by_thresholds. apply Qltb_lt in R. now rewrite R.
  - intros R W. unfold by_thresholds.
    apply Qnot_lt_le, Qltb_ge in R. apply Qltb_lt in W. now rewrite R, W.
  - intros R W. unfold by_thresholds.
    apply Qnot_lt_le, Qltb_ge in R. apply Qnot_lt_le, Qltb_ge in W.
    now rewrite R, W.
Qed.

Lemma detect_severe_falsy_condition_witness :
  detect_severe None 15 0 = inr (true, Some heavy_rain_msg) /\
  detect_severe (Some "") 0 11
    = inr (true, Some "⚠️ Strong winds expected (11.0 m/s)") /\
  detect_severe None 10 10 = inr (false, None).
Proof.
  pose proof (detect_severe_falsy_condition 15 0) as [A [_ [R _]]].
  pose proof (detect_severe_falsy_condition 0 11) as [_ [B [_ [W _]]]].
  pose proof (detect_severe_falsy_condition 10 10) as [C [_ [_ [_ N]]]].
  split; [|split].
  - rewrite A, R; [reflexivity | reflexivity].
  - rewrite B, W; [reflexivity | discriminate | reflexivity].
  - rewrite C, N; [reflexivity | discriminate | discriminate].
Defined.

End Severity.

(** ** Recommendation generator *)

(** C8: with the label "Low", [adaptive_recommendation] returns the one
    fixed uncertainty message whatever the condition is, and the condition
    is not inspected: not even a missing condition makes it fail, and no
    suggestion is drawn. *)
Theorem adaptive_recommendation_low
    (sample : list string -> nat -> list string) (cond : pystr) :
  adaptive_recommendation sample cond "Low" = inr uncertain_msg /\
  uncertain_msg = "Forecast uncertain. Prepare for all conditions."%string.
Proof. split; reflexivity. Qed.

Example adaptive_recommendation_inspects_otherwise :
  adaptive_recommendation (fun l n => firstn n l) None "High"
    = inl AttributeError.
Proof. reflexivity. Qed.

(** ** Summary aggregator *)

Lemma fold_min_spec (t : list Q) (x : Q) :
  is_min (fold_left py_min2 t x) (x :: t).
Proof.
  revert x. induction t as [|y t IH]; intros x; simpl.
  - split; [now left | constructor; [lra | constructor]].
  - destruct (IH (py_min2 x y)) as [I F]. inversion F as [|? ? Fh Ft]; subst.
    unfold py_min2 in *. split.
    + destruct I as [I|I]; [|now right; right].
      rewrite <- I. destruct (Qltb y x); [right; now left | now left].
    + destruct (Qltb y x) eqn:E;
        [apply Qltb_lt in E | apply Qltb_ge in E];
        (constructor; [lra | constructor; [lra | exact Ft]]).
Qed.

Lemma fold_max_spec (t : list Q) (x : Q) :
  is_max (fold_left py_max2 t x) (x :: t).
Proof.
  revert x. induction t as [|y t IH]; intros x; simpl.
  - split; [now left | constructor; [lra | constructor]].
  - destruct (IH (py_max2 x y)) as [I F]. inversion F as [|? ? Fh Ft]; subst.
    unfold py_max2 in *. split.
    + destruct I as [I|I]; [|now right; right].
      rewrite <- I. destruct (Qltb x y); [right; now left | now left].
    + destruct (Qltb x y) eqn:E;
        [apply Qltb_lt in E | apply Qltb_ge in E];
        (constructor; [lra | constructor; [lra | exact Ft]]).
Qed.

Lemma leb_neq_ltb (a b : string) :
  String.leb a b = true -> a <> b -> String.ltb a b = true.
Proof.
  unfold String.leb, String.ltb. intros L N.
  destruct (String.compare a b) eqn:C; try discriminate; trivial.
  apply String.compare_eq_iff in C. contradiction.
Qed.

Lemma insert_sorted_in (x y : string) (l : list string) :
  In y (insert_sorted x l) <-> y = x \/ In y l.
Proof.
  induction l as [|z l IH]; simpl.
  - intuition congruence.
  - destruct (String.leb x z); simpl; [intuition congruence|].
    rewrite IH. intuition.
Qed.

Lemma insert_sorted_increasing (x : string) (l : list string) :
  increasing l -> ~ In x l -> increasing (insert_sorted x l).
Proof.
  unfold increasing. induction l as [|z l IH]; intros S N; simpl.
  - repeat constructor.
  - assert (Nz : x <> z) by (intros ->; apply N; now left).
    destruct (String.leb x z) eqn:L.
    + constructor; [exact S|]. constructor. now apply leb_neq_ltb.
    + inversion S as [|? ? S' H']; subst.
      constructor; [apply IH; [exact S' | intros I; apply N; now right]|].
      assert (Z : String.ltb z x = true).
      { apply leb_neq_ltb; [|congruence].
        destruct (String.leb_total x z); congruence. }
      destruct l as [|w l]; simpl.
      * now constructor.
      * destruct (String.leb x w); constructor; trivial.
        now inversion H'.
Qed.

Lemma sorted_spec (l : list string) :
  NoDup l ->
  increasing (sorted l) /\ NoDup (sorted l) /\
  forall c, In c (sorted l) <-> In c l.
Proof.
  induction 1 as [|x l N D IH]; simpl.
  - repeat split; try constructor; trivial.
  - destruct IH as [S [U I]].
    assert (N' : ~ In x (sorted l)) by now rewrite I.
    split; [now apply insert_sorted_increasing|]. split.
    + clear S I. revert U N'. generalize (sorted l) as s.
      induction s as [|z s IHs]; intros U N'; simpl.
      * repeat constructor. intros [].
      * destruct (String.leb x z).
        -- constructor; trivial.
        -- inversion U; subst. constructor.
           ++ rewrite insert_sorted_in. intros [->|J]; [|contradiction].
              apply N'. now left.
           ++ apply IHs; trivial. intros J. apply N'. now right.
    + intros c. rewrite insert_sorted_in, I. simpl. intuition congruence.
Qed.

Lemma conditions_spec (fs : list forecast) :
  increasing (sorted (condition_set fs)) /\
  NoDup (sorted (condition_set fs)) /\
  forall c, In c (sorted (condition_set fs)) <->
            exists f, In f fs /\ condition f = c.
Proof.
  destruct (sorted_spec (condition_set fs)) as [S [U I]].
  - apply NoDup_nodup.
  - repeat split; trivial.
    + intros J. apply I in J. apply nodup_In in J.
      apply in_map_iff in J. destruct J as [f [E J]]. eauto.
    + intros [f [J E]]. apply I, nodup_In, in_map_iff. eauto.
Qed.

Lemma summarize_cons (pstdev : list Q -> Q) (f : forecast)
    (fs : list forecast) :
  summarize pstdev (f :: fs) =
  inr {| temp_range := (fold_left py_min2 (map temp fs) (temp f),
                        fold_left py_max2 (map temp fs) (temp f));
         rain_range := (fold_left py_min2 (map rain fs) (rain f),
                        fold_left py_max2 (map rain fs) (rain f));
         conditions := sorted (condition_set (f :: fs));
         temp_unc := uncertainty_bounds pstdev (map temp (f :: fs));
         rain_unc := uncertainty_bounds pstdev (map rain (f :: fs)) |}.
Proof. reflexivity. Qed.

Lemma uncertainty_bounds_many (pstdev : list Q -> Q) (v : list Q) :
  (2 <= length v)%nat -> uncertainty_bounds pstdev v = pstdev v.
Proof.
  intros L. unfold uncertainty_bounds.
  destruct (Nat.ltb_spec 1 (length v)); [reflexivity | lia].
Qed.

Lemma uncertainty_bounds_few (pstdev : list Q -> Q) (v : list Q) :
  (length v < 2)%nat -> uncertainty_bounds pstdev v = 0.
Proof.
  intros L. unfold uncertainty_bounds.
  destruct (Nat.ltb_spec 1 (length v)); [lia | reflexivity].
Qed.

(** C4: on a non-empty batch [summarize] returns a summary whose ranges are
    the plain minimum and maximum of each metric, whose conditions are the
    distinct condition strings in increasing lexicographic order, and whose
    uncertainties are the population standard deviation of each metric for
    two forecasts or more and exactly 0 for one; for a single forecast both
    ranges are that sample. *)
Theorem summarize_nonempty (pstdev : list Q -> Q) (fs : list forecast) :
  fs <> [] ->
  exists s, summarize pstdev fs = inr s /\
    is_min (fst (temp_range s)) (map temp fs) /\
    is_max (snd (temp_range s)) (map temp fs) /\
    is_min (fst (rain_range s)) (map rain fs) /\
    is_max (snd (rain_range s)) (map rain fs) /\
    increasing (conditions s) /\ NoDup (conditions s) /\
    (forall c, In c (conditions s) <-> exists f, In f fs /\ condition f = c) /\
    ((2 <= length fs)%nat ->
       temp_unc s = pstdev (map temp fs) /\
       rain_unc s = pstdev (map rain fs)) /\
    (forall f, fs = [f] ->
       temp_unc s = 0 /\ rain_unc s = 0 /\
       temp_range s = (temp f, temp f) /\
       rain_range s = (rain f, rain f)).
Proof.
  destruct fs as [|f fs]; [congruence|]. intros _.
  eexists. split; [apply summarize_cons|]. cbn [temp_range rain_range
    conditions temp_unc rain_unc fst snd].
  destruct (conditions_spec (f :: fs)) as [S [U I]].
  split; [apply (fold_min_spec (map temp fs))|].
  split; [apply (fold_max_spec (map temp fs))|].
  split; [apply (fold_min_spec (map rain fs))|].
  split; [apply (fold_max_spec (map rain fs))|].
  split; [exact S|]. split; [exact U|]. split; [exact I|]. split.
  - intros L. split; apply uncertainty_bounds_many;
      rewrite length_map; exact L.
  - intros g E. injection E as -> ->. repeat split.
Qed.

Lemma pstdev_pair_sound (a b : Q) :
  0 <= pstdev_pair [a; b] /\
  pstdev_pair [a; b] * pstdev_pair [a; b] == pvariance [a; b].
Proof.
  unfold pstdev_pair, pvariance, mean, Qsum. cbn [map fold_right length].
  change (inject_Z (Z.of_nat 2)) with 2.
  destruct (Qlt_le_dec (a - b) 0) as [L|L].
  - rewrite (Qabs_neg (a - b)) by lra. split; [|field].
    unfold Qdiv. change (/ 2) with (1 # 2). lra.
  - rewrite (Qabs_pos (a - b)) by lra. split; [|field].
    unfold Qdiv. change (/ 2) with (1 # 2). lra.
Qed.

Lemma summarize_nonempty_witness :
  exists s,
    summarize pstdev_pair
      [mkForecast "A" 20 0 "Rain" 3; mkForecast "B" 25 5 "Clear" 4] = inr s /\
    temp_range s = (20, 25) /\ rain_range s = (0, 5) /\
    conditions s = ["Clear"; "Rain"]%string /\
    temp_unc s = 5 / 2 /\ rain_unc s = 5 / 2.
Proof.
  destruct (summarize_nonempty pstdev_pair
              [mkForecast "A" 20 0 "Rain" 3; mkForecast "B" 25 5 "Clear" 4])
    as [s [E _]].
  - discriminate.
  - exists s. split; [exact E|].
    vm_compute in E. injection E as <-. repeat split.
Defined.

(** C5 as stated fails: on the empty batch [summarize] returns no result at
    all, its first [min] raises [ValueError]. *)
Lemma empty_batch_returns_nothing :
  ~ (forall pstdev : list Q -> Q,
       exists s, summarize pstdev [] = inr s /\
                 temp_unc s = 0 /\ rain_unc s = 0).
Proof.
  intros H. destruct (H (fun _ => 0)) as [s [E _]]. discriminate.
Qed.

(** C5, amended: on the empty batch [summarize] raises [ValueError] (the
    ranges are undefined, which is why callers guard), while
    [uncertainty_bounds] alone gives 0 for both metrics of an empty batch. *)
Theorem summarize_empty (pstdev : list Q -> Q) :
  summarize pstdev [] = inl ValueError /\
  uncertainty_bounds pstdev (map temp []) = 0 /\
  uncertainty_bounds pstdev (map rain []) = 0.
Proof. repeat split. Qed.

(** ** Forecast normalizers *)

Section Normalizers.
Local Open Scope string_scope.

Lemma bind_inr {A B : Type} (m : result A) (k : A -> result B) (b : B) :
  bind m k = inr b -> exists a, m = inr a /\ k a = inr b.
Proof. destruct m as [e|a]; simpl; [discriminate | eauto]. Qed.

Lemma try_except_none_total {A : Type} (m : result (option A)) :
  exists r, try_except_none m = inr r.
Proof. destruct m; simpl; eauto. Qed.

Lemma try_except_none_raise {A : Type} (m : result (option A)) (e : exn) :
  m = inl e -> try_except_none m = inr None.
Proof. now intros ->. Qed.

Lemma try_except_none_some {A : Type} (m : result (option A)) (a : A) :
  try_except_none m = inr (Some a) -> m = inr (Some a).
Proof. destruct m; simpl; [discriminate | trivial]. Qed.

(** A normalizer that returns no forecast returns [None]. *)
Lemma try_except_none_absent {A : Type} (m : result (option A)) :
  (forall a, try_except_none m <> inr (Some a)) ->
  try_except_none m = inr None.
Proof.
  destruct m as [e|[a|]]; simpl; trivial. intros N. now contradiction (N a).
Qed.

(** Splits a hypothesis [x <- m ;; k = inr b] into its steps. *)
Ltac steps H :=
  repeat (let v := fresh "v" in
          let E := fresh "E" in
          apply bind_inr in H; destruct H as [v [E H]]).

(** A present result comes from a truthy response with a JSON body. *)
Ltac open_response H o r j K J :=
  apply try_except_none_some in H;
  destruct o as [?|r]; cbn [retry_get] in H; [discriminate|];
  destruct (ok r) eqn:K; cbn [negb] in H; [|discriminate];
  unfold response_json in H;
  destruct (body r) as [j|] eqn:J; [|discriminate];
  cbn [bind ret] in H.

(** Runs a body forward along the lookups known to succeed. *)
Ltac forward :=
  repeat match goal with
         | H : ?x = inr _ |- context [bind ?x _] => rewrite H; cbn [bind ret]
         end.

(** *** Multiplication *)

Lemma mul_float_inr (v : json) (c : Q) (x : json) :
  mul_float v c = inr x ->
  exists q y, as_number v = Some q /\ float_times q c = inr y /\ x = JNum y.
Proof.
  unfold mul_float. destruct (as_number v) as [q|]; [|discriminate].
  intros H. apply bind_inr in H. destruct H as [y [E H]].
  injection H as <-. eauto.
Qed.

Lemma mul_float_number (v : json) (c q y : Q) :
  as_number v = Some q -> float_times q c = inr y ->
  mul_float v c = inr (JNum y).
Proof. unfold mul_float. now intros -> ->. Qed.

Lemma mul_float_raises (v : json) (c : Q) :
  as_number v = None \/
  (exists q e, as_number v = Some q /\ float_times q c = inl e) ->
  exists e, mul_float v c = inl e.
Proof.
  unfold mul_float. intros [->|[q [e [-> ->]]]]; simpl; eauto.
Qed.

(** *** Lookups and places *)

Lemma getitem_inr (v : json) (k : string) (x : json) :
  getitem v k = inr x <-> exists m, v = JObj m /\ assoc k m = Some x.
Proof.
  split.
  - destruct v; simpl; try discriminate.
    destruct (assoc k fields) eqn:A; [|discriminate].
    intros H. injection H as <-. eauto.
  - intros [m [-> A]]. simpl. now rewrite A.
Qed.

Lemma getindex_object (v : json) (i : nat) (m : list (string * json)) :
  getindex v i = inr (JObj m) <->
  exists l, v = JArr l /\ nth_error l i = Some (JObj m).
Proof.
  split.
  - destruct v; simpl; try discriminate.
    + destruct (nth_error (utf8_chars s) i); discriminate.
    + destruct (nth_error items i) eqn:N; [|discriminate].
      intros H. injection H as ->. eauto.
  - intros [l [-> N]]. simpl. now rewrite N.
Qed.

Lemma getindex_array (l : list json) (i : nat) (x : json) :
  getindex (JArr l) i = inr x <-> nth_error l i = Some x.
Proof.
  simpl. unfold ret, raise.
  destruct (nth_error l i); split; intros H; try discriminate; congruence.
Qed.

Lemma at_path_key (k : string) (p : list step) (v x : json) :
  getitem v k = inr x -> at_path (Key k :: p) v = at_path p x.
Proof.
  intros H. apply getitem_inr in H. destruct H as [m [-> A]].
  simpl. now rewrite A.
Qed.

Lemma at_path_key_inv (k : string) (p : list step) (v y : json) :
  at_path (Key k :: p) v = Some y ->
  exists x, getitem v k = inr x /\ at_path p x = Some y.
Proof.
  destruct v; simpl; try discriminate.
  destruct (assoc k fields) eqn:A; [|discriminate]. eauto.
Qed.

Lemma at_path_idx_inv (i : nat) (p : list step) (v y : json) :
  at_path (Idx i :: p) v = Some y ->
  exists x, getindex v i = inr x /\ at_path p x = Some y.
Proof.
  destruct v; simpl; try discriminate.
  destruct (nth_error items i) eqn:A; [|discriminate]. eauto.
Qed.

Lemma at_path_app (p1 p2 : list step) (v : json) :
  at_path (p1 ++ p2) v =
  match at_path p1 v with
  | Some x => at_path p2 x
  | None => None
  end.
Proof.
  revert v. induction p1 as [|[k|i] p1 IH]; intros v; simpl; trivial.
  - destruct v; trivial. destruct (assoc k fields); trivial.
  - destruct v; trivial. destruct (nth_error items i); trivial.
Qed.

(** *** WeatherAPI *)

Lemma weatherapi_day_path (j day : json) :
  weatherapi_day j = inr day <->
  at_path (record_path WeatherAPI) j = Some day.
Proof.
  unfold weatherapi_day, record_path. split.
  - intros H. steps H.
    rewrite (at_path_key _ _ _ _ E), (at_path_key _ _ _ _ E0).
    pose proof H as H'. apply getitem_inr in H'. destruct H' as [m [-> A]].
    apply getindex_object in E1. destruct E1 as [l [-> N]].
    cbn [at_path]. now rewrite N, A.
  - intros H.
    apply at_path_key_inv in H. destruct H as [f [F H]].
    apply at_path_key_inv in H. destruct H as [fd [D H]].
    apply at_path_idx_inv in H. destruct H as [d1 [I H]].
    apply at_path_key_inv in H. destruct H as [x [G H]].
    injection H as ->. forward. exact G.
Qed.

(** A forecast of WeatherAPI and the data it was built from. *)
Lemma weatherapi_some (o : http_outcome) (f : raw_forecast) :
  get_weatherapi o = inr (Some f) <->
  exists r j d t rn cm ct mph q x,
    o = HttpReturns r /\ ok r = true /\ body r = Some j /\
    at_path (record_path WeatherAPI) j = Some (JObj d) /\
    assoc "avgtemp_c" d = Some t /\
    assoc "totalprecip_mm" d = Some rn /\
    assoc "condition" d = Some (JObj cm) /\
    assoc "text" cm = Some ct /\
    assoc "maxwind_mph" d = Some mph /\
    as_number mph = Some q /\ float_times q 0.44704 = inr x /\
    f = mkRaw "WeatherAPI" t rn ct (JNum x).
Proof.
  unfold get_weatherapi, weatherapi_body. split.
  - intros H. open_response H o r j K J.
    apply bind_inr in H. destruct H as [day [D H]].
    apply bind_inr in H. destruct H as [t [T H]].
    apply bind_inr in H. destruct H as [rn [R H]].
    apply bind_inr in H. destruct H as [c [C H]].
    apply bind_inr in H. destruct H as [ct [CT H]].
    apply bind_inr in H. destruct H as [mph [M H]].
    apply bind_inr in H. destruct H as [wv [W H]].
    injection H as <-.
    apply weatherapi_day_path in D.
    apply getitem_inr in T. destruct T as [d [-> T]].
    apply getitem_inr in R. destruct R as [d' [Ed R]].
    injection Ed as <-.
    apply getitem_inr in C. destruct C as [d' [Ed C]].
    injection Ed as <-.
    apply getitem_inr in CT. destruct CT as [cm [-> CT]].
    apply getitem_inr in M. destruct M as [d' [Ed M]].
    injection Ed as <-.
    apply mul_float_inr in W. destruct W as [q [x [N [F ->]]]].
    exists r, j, d, t, rn, cm, ct, mph, q, x. repeat split; trivial.
  - intros [r [j [d [t [rn [cm [ct [mph [q [x
      [-> [K [J [D [T [R [C [CT [M [N [F ->]]]]]]]]]]]]]]]]]]]]].
    apply weatherapi_day_path in D.
    cbn [retry_get]. rewrite K. cbn [negb]. unfold response_json.
    rewrite J. cbn [bind ret]. rewrite D. cbn [bind getitem].
    rewrite T, R, C. cbn [bind ret getitem]. rewrite CT, M.
    cbn [bind ret]. rewrite (mul_float_number _ _ _ _ N F). reflexivity.
Qed.

(** *** Weatherstack *)

Lemma weatherstack_some (o : http_outcome) (f : raw_forecast) :
  get_weatherstack o = inr (Some f) <->
  exists r j c t rn ds d0 kmh q x,
    o = HttpReturns r /\ ok r = true /\ body r = Some j /\
    at_path (record_path Weatherstack) j = Some (JObj c) /\
    assoc "temperature" c = Some t /\
    assoc "precip" c = Some rn /\
    assoc "weather_descriptions" c = Some ds /\
    getindex ds 0 = inr d0 /\
    assoc "wind_speed" c = Some kmh /\
    as_number kmh = Some q /\ float_times q 0.277778 = inr x /\
    f = mkRaw "Weatherstack" t rn d0 (JNum x).
Proof.
  unfold get_weatherstack, weatherstack_body, record_path. split.
  - intros H. open_response H o r j K J.
    apply bind_inr in H. destruct H as [cur [C H]].
    apply bind_inr in H. destruct H as [t [T H]].
    apply bind_inr in H. destruct H as [rn [R H]].
    apply bind_inr in H. destruct H as [ds [D H]].
    apply bind_inr in H. destruct H as [d0 [D0 H]].
    apply bind_inr in H. destruct H as [kmh [M H]].
    apply bind_inr in H. destruct H as [wv [W H]].
    injection H as <-.
    apply getitem_inr in T. destruct T as [c [-> T]].
    apply getitem_inr in R. destruct R as [c' [Ec R]].
    injection Ec as <-.
    apply getitem_inr in D. destruct D as [c' [Ec D]].
    injection Ec as <-.
    apply getitem_inr in M. destruct M as [c' [Ec M]].
    injection Ec as <-.
    apply mul_float_inr in W. destruct W as [q [x [N [F ->]]]].
    exists r, j, c, t, rn, ds, d0, kmh, q, x.
    rewrite (at_path_key _ _ _ _ C). repeat split; trivial.
  - intros [r [j [c [t [rn [ds [d0 [kmh [q [x
      [-> [K [J [C [T [R [D [D0 [M [N [F ->]]]]]]]]]]]]]]]]]]]]].
    apply at_path_key_inv in C. destruct C as [cur [C E]].
    injection E as ->.
    cbn [retry_get]. rewrite K. cbn [negb]. unfold response_json.
    rewrite J. cbn [bind ret]. rewrite C. cbn [bind getitem].
    rewrite T, R, D. cbn [bind ret]. rewrite D0. cbn [bind]. rewrite M.
    cbn [bind ret]. rewrite (mul_float_number _ _ _ _ N F). reflexivity.
Qed.

(** *** Open-Meteo *)

Lemma hourly_inr (j : json) (k : string) (x : json) :
  hourly j k = inr x <->
  exists h, at_path (record_path OpenMeteo) j = Some (JObj h) /\
            assoc k h = Some x.
Proof.
  unfold hourly, record_path. split.
  - intros H. apply bind_inr in H. destruct H as [h [E H]].
    apply getitem_inr in H. destruct H as [m [-> A]].
    exists m. now rewrite (at_path_key _ _ _ _ E).
  - intros [h [P A]]. apply at_path_key_inv in P.
    destruct P as [x' [E P]]. injection P as ->.
    rewrite E. cbn [bind getitem]. now rewrite A.
Qed.

(** A forecast of Open-Meteo and the data it was built from. *)
Lemma openmeteo_some (t : string) (o : http_outcome) (f : raw_forecast) :
  get_openmeteo t o = inr (Some f) <->
  exists r j h tm i codes code temps tv rains rv winds wv,
    o = HttpReturns r /\ ok r = true /\ body r = Some j /\
    at_path (record_path OpenMeteo) j = Some (JObj h) /\
    assoc "time" h = Some tm /\
    contains_str t tm = inr true /\ index_str tm t = inr i /\
    assoc "weathercode" h = Some codes /\ getindex codes i = inr code /\
    assoc "temperature_2m" h = Some temps /\ getindex temps i = inr tv /\
    assoc "precipitation" h = Some rains /\ getindex rains i = inr rv /\
    assoc "windspeed_10m" h = Some winds /\ getindex winds i = inr wv /\
    f = mkRaw "Open-Meteo" tv rv (JStr (openmeteo_condition code)) wv.
Proof.
  unfold get_openmeteo, openmeteo_body. split.
  - intros H. open_response H o r j K J.
    apply bind_inr in H. destruct H as [tm [T H]].
    apply bind_inr in H. destruct H as [found [C H]].
    destruct found; [|discriminate].
    apply bind_inr in H. destruct H as [tm' [T' H]].
    apply bind_inr in H. destruct H as [i [I H]].
    apply bind_inr in H. destruct H as [codes [CS H]].
    apply bind_inr in H. destruct H as [code [CD H]].
    apply bind_inr in H. destruct H as [temps [TS H]].
    apply bind_inr in H. destruct H as [tv [TV H]].
    apply bind_inr in H. destruct H as [rains [RS H]].
    apply bind_inr in H. destruct H as [rv [RV H]].
    apply bind_inr in H. destruct H as [winds [WS H]].
    apply bind_inr in H. destruct H as [wv [WV H]].
    injection H as <-.
    rewrite T in T'. injection T' as <-.
    apply hourly_inr in T. destruct T as [h [P T]].
    apply hourly_inr in CS. destruct CS as [h' [P' CS]].
    rewrite P in P'. injection P' as <-.
    apply hourly_inr in TS. destruct TS as [h' [P' TS]].
    rewrite P in P'. injection P' as <-.
    apply hourly_inr in RS. destruct RS as [h' [P' RS]].
    rewrite P in P'. injection P' as <-.
    apply hourly_inr in WS. destruct WS as [h' [P' WS]].
    rewrite P in P'. injection P' as <-.
    exists r, j, h, tm, i, codes, code, temps, tv, rains, rv, winds, wv.
    repeat split; trivial.
  - intros [r [j [h [tm [i [codes [code [temps [tv [rains [rv [winds [wv
      [-> [K [J [P [T [C [I [CS [CD [TS [TV [RS [RV [WS [WV ->]]]]]]]]]]]]]]]
      ]]]]]]]]]]]]].
    assert (HT : hourly j "time" = inr tm) by (apply hourly_inr; eauto).
    assert (HC : hourly j "weathercode" = inr codes)
      by (apply hourly_inr; eauto).
    assert (HTS : hourly j "temperature_2m" = inr temps)
      by (apply hourly_inr; eauto).
    assert (HRS : hourly j "precipitation" = inr rains)
      by (apply hourly_inr; eauto).
    assert (HWS : hourly j "windspeed_10m" = inr winds)
      by (apply hourly_inr; eauto).
    cbn [retry_get]. rewrite K. cbn [negb]. unfold response_json.
    rewrite J. cbn [bind ret]. rewrite HT. cbn [bind]. rewrite C.
    cbn [bind]. rewrite I. cbn [bind]. rewrite HC. cbn [bind].
    rewrite CD. cbn [bind]. rewrite HTS. cbn [bind]. rewrite TV.
    cbn [bind]. rewrite HRS. cbn [bind]. rewrite RV. cbn [bind].
    rewrite HWS. cbn [bind]. rewrite WV. reflexivity.
Qed.

(** *** OpenWeatherMap *)

Lemma openweather_loop_some (target : string) (entries : list json)
    (f : raw_forecast) :
  openweather_loop target entries = inr (Some f) ->
  exists pre e post,
    entries = (pre ++ e :: post)%list /\
    Forall (fun x => openweather_match target x = inr false) pre /\
    openweather_match target e = inr true /\
    openweather_entry e = inr f.
Proof.
  induction entries as [|x rest IH]; cbn [openweather_loop]; intros H.
  - discriminate.
  - apply bind_inr in H. destruct H as [b [M H]]. destruct b.
    + apply bind_inr in H. destruct H as [g [G H]]. injection H as ->.
      exists [], x, rest. repeat split; trivial.
    + destruct (IH H) as [pre [e [post [-> [P [Me Ge]]]]]].
      exists (x :: pre), e, post. repeat split; trivial.
      now constructor.
Qed.

Lemma openweather_loop_none (target : string) (entries : list json) :
  Forall (fun x => openweather_match target x = inr false) entries ->
  openweather_loop target entries = inr None.
Proof.
  induction 1 as [|x rest M _ IH]; cbn [openweather_loop].
  - reflexivity.
  - now rewrite M.
Qed.

Lemma openweather_loop_skip (target : string) (pre rest : list json) :
  Forall (fun x => openweather_match target x = inr false) pre ->
  openweather_loop target (pre ++ rest) = openweather_loop target rest.
Proof.
  induction 1 as [|x pre M _ IH]; cbn [app openweather_loop]; trivial.
  now rewrite M.
Qed.

Lemma get_openweather_entries (target : string) (r : Response)
    (j l : json) (entries : list json) :
  ok r = true -> body r = Some j ->
  dict_get j "list" (JArr []) = inr l -> py_iter l = inr entries ->
  get_openweather target (HttpReturns r) =
  try_except_none (openweather_loop target entries).
Proof.
  intros K J L I. unfold get_openweather, openweather_body, retry_get,
    response_json.
  rewrite K, J. cbn [negb bind ret]. rewrite L. cbn [bind].
  now rewrite I.
Qed.

Lemma openweather_match_target (target : string) (e : json) (b : bool) :
  openweather_match target e = inr b <-> at_target target e = Some b.
Proof.
  unfold openweather_match, at_target. split.
  - intros H. apply bind_inr in H. destruct H as [d [D H]].
    rewrite (at_path_key _ _ _ _ D). cbn [at_path].
    apply bind_inr in H. destruct H as [b1 [S H]].
    destruct d; try discriminate. cbn in S. injection S as <-.
    destruct (prefix target s).
    + rewrite D in H. cbn in H. now injection H as <-.
    + now injection H as <-.
  - intros H. destruct (at_path [Key "dt_txt"] e) as [[| | |s| |]|] eqn:P;
      try discriminate.
    apply at_path_key_inv in P. destruct P as [x [D P]].
    injection P as ->. injection H as <-.
    rewrite D. cbn [bind startswith ret].
    destruct (prefix target s); reflexivity.
Qed.

(** The forecast built from an entry and the data it was built from. *)
Lemma openweather_entry_some (e : json) (f : raw_forecast) :
  openweather_entry e = inr f <->
  exists m mm t r3 wl wm desc wdm sp,
    e = JObj m /\
    assoc "main" m = Some (JObj mm) /\ assoc "temp" mm = Some t /\
    dict_get (match assoc "rain" m with
              | Some x => x
              | None => JObj []
              end) "3h" (JNum 0) = inr r3 /\
    assoc "weather" m = Some wl /\ getindex wl 0 = inr (JObj wm) /\
    assoc "description" wm = Some desc /\
    assoc "wind" m = Some (JObj wdm) /\ assoc "speed" wdm = Some sp /\
    f = mkRaw "OpenWeatherMap" t r3 desc sp.
Proof.
  unfold openweather_entry. split.
  - intros H.
    apply bind_inr in H. destruct H as [mn [MN H]].
    apply bind_inr in H. destruct H as [t [T H]].
    apply bind_inr in H. destruct H as [rn [RN H]].
    apply bind_inr in H. destruct H as [r3 [R3 H]].
    apply bind_inr in H. destruct H as [wl [WL H]].
    apply bind_inr in H. destruct H as [w0 [W0 H]].
    apply bind_inr in H. destruct H as [desc [DS H]].
    apply bind_inr in H. destruct H as [wi [WI H]].
    apply bind_inr in H. destruct H as [sp [SP H]].
    injection H as <-.
    apply getitem_inr in MN. destruct MN as [m [-> MN]].
    apply getitem_inr in T. destruct T as [mm [-> T]].
    cbn [dict_get ret] in RN. injection RN as <-.
    apply getitem_inr in WL. destruct WL as [m' [Em WL]].
    injection Em as <-.
    apply getitem_inr in DS. destruct DS as [wm [-> DS]].
    apply getitem_inr in WI. destruct WI as [m' [Em WI]].
    injection Em as <-.
    apply getitem_inr in SP. destruct SP as [wdm [-> SP]].
    exists m, mm, t, r3, wl, wm, desc, wdm, sp. repeat split; trivial.
  - intros [m [mm [t [r3 [wl [wm [desc [wdm [sp
      [-> [MN [T [R3 [WL [W0 [DS [WI [SP ->]]]]]]]]]]]]]]]]]].
    cbn [getitem dict_get]. rewrite MN. cbn [bind ret getitem].
    rewrite T. cbn [bind ret]. rewrite R3. cbn [bind]. rewrite WL.
    cbn [bind ret]. rewrite W0. cbn [bind getitem]. rewrite DS.
    cbn [bind ret]. rewrite WI. cbn [bind ret getitem]. rewrite SP.
    reflexivity.
Qed.

(** The entries [get_openweather] runs through, from the data. *)
Lemma openweather_entries_of_path (j : json) (entries : list json) :
  at_path (record_path OpenWeatherMap) j = Some (JArr entries) ->
  dict_get j "list" (JArr []) = inr (JArr entries) /\
  py_iter (JArr entries) = inr entries.
Proof.
  unfold record_path. intros P. apply at_path_key_inv in P.
  destruct P as [x [G P]]. injection P as ->.
  apply getitem_inr in G. destruct G as [m [-> A]].
  cbn. rewrite A. split; reflexivity.
Qed.

(** A forecast of OpenWeatherMap and the entry it was built from. *)
Lemma openweather_some (target : string) (o : http_outcome)
    (f : raw_forecast) :
  get_openweather target o = inr (Some f) ->
  exists r j l pre e post,
    o = HttpReturns r /\ ok r = true /\ body r = Some j /\
    dict_get j "list" (JArr []) = inr l /\
    py_iter l = inr (pre ++ e :: post)%list /\
    Forall (fun x => at_target target x = Some false) pre /\
    at_target target e = Some true /\
    openweather_entry e = inr f.
Proof.
  unfold get_openweather, openweather_body. intros H.
  open_response H o r j K J.
  apply bind_inr in H. destruct H as [l [L H]].
  apply bind_inr in H. destruct H as [entries [I H]].
  apply openweather_loop_some in H.
  destruct H as [pre [e [post [-> [P [M G]]]]]].
  exists r, j, l, pre, e, post. repeat split; trivial.
  - eapply Forall_impl; [|exact P]. intros x X.
    now apply openweather_match_target.
  - now apply openweather_match_target.
Qed.

(** The first entry of the target time decides the forecast. *)
Lemma openweather_present (target : string) (r : Response) (j : json)
    (pre post : list json) (e : json) :
  ok r = true -> body r = Some j ->
  at_path (record_path OpenWeatherMap) j = Some (JArr (pre ++ e :: post)) ->
  Forall (fun x => at_target target x = Some false) pre ->
  at_target target e = Some true ->
  get_openweather target (HttpReturns r) =
  try_except_none (f <- openweather_entry e ;; ret (Some f)).
Proof.
  intros K J P F M. apply openweather_entries_of_path in P.
  destruct P as [L I].
  rewrite (get_openweather_entries target r j _ _ K J L I).
  rewrite openweather_loop_skip.
  - cbn [openweather_loop].
    apply openweather_match_target in M. now rewrite M.
  - eapply Forall_impl; [|exact F]. intros x X.
    now apply openweather_match_target.
Qed.

Lemma openweather_list_of_entries (j l : json) (pre post : list json)
    (m : list (string * json)) :
  dict_get j "list" (JArr []) = inr l ->
  py_iter l = inr (pre ++ JObj m :: post)%list ->
  at_path (record_path OpenWeatherMap) j
    = Some (JArr (pre ++ JObj m :: post)).
Proof.
  unfold record_path. intros L I.
  assert (X : In (JObj m) (pre ++ JObj m :: post)) by apply in_elt.
  destruct j; try discriminate. cbn [dict_get ret] in L.
  injection L as <-. cbn [at_path].
  destruct (assoc "list" fields) as [l|].
  - destruct l; try discriminate; cbn [py_iter ret] in I;
      injection I as I; rewrite <- I in X.
    + apply in_map_iff in X. destruct X as [c [E _]]. discriminate.
    + now rewrite I.
    + apply in_map_iff in X. destruct X as [c [E _]]. discriminate.
  - cbn in I. injection I as I. rewrite <- I in X. destruct X.
Qed.

(** A forecast of OpenWeatherMap and the data it was built from. *)
Lemma openweather_some_iff (target : string) (o : http_outcome)
    (f : raw_forecast) :
  get_openweather target o = inr (Some f) <->
  exists r j pre m post mm t r3 wl wm desc wdm sp,
    o = HttpReturns r /\ ok r = true /\ body r = Some j /\
    at_path (record_path OpenWeatherMap) j
      = Some (JArr (pre ++ JObj m :: post)) /\
    Forall (fun x => at_target target x = Some false) pre /\
    at_target target (JObj m) = Some true /\
    assoc "main" m = Some (JObj mm) /\ assoc "temp" mm = Some t /\
    dict_get (match assoc "rain" m with
              | Some x => x
              | None => JObj []
              end) "3h" (JNum 0) = inr r3 /\
    assoc "weather" m = Some wl /\ getindex wl 0 = inr (JObj wm) /\
    assoc "description" wm = Some desc /\
    assoc "wind" m = Some (JObj wdm) /\ assoc "speed" wdm = Some sp /\
    f = mkRaw "OpenWeatherMap" t r3 desc sp.
Proof.
  split.
  - intros H. apply openweather_some in H.
    destruct H as [r [j [l [pre [e [post [-> [K [J [L [I [P [M G]]]]]]]]]]]]].
    apply openweather_entry_some in G.
    destruct G as [m [mm [t [r3 [wl [wm [desc [wdm [sp
      [-> [MN [T [R3 [WL [W0 [DS [WI [SP ->]]]]]]]]]]]]]]]]]].
    exists r, j, pre, m, post, mm, t, r3, wl, wm, desc, wdm, sp.
    repeat split; trivial.
    exact (openweather_list_of_entries j l pre post m L I).
  - intros (r & j & pre & m & post & mm & t & r3 & wl & wm & desc & wdm & sp
      & -> & K & J & P & F & M & MN & T & R3 & WL & W0 & DS & WI & SP & ->).
    rewrite (openweather_present target r j pre post (JObj m) K J P F M).
    assert (G : openweather_entry (JObj m)
                = inr (mkRaw "OpenWeatherMap" t r3 desc sp)).
    { apply openweather_entry_some.
      exists m, mm, t, r3, wl, wm, desc, wdm, sp. repeat split; trivial. }
    now rewrite G.
Qed.

End Normalizers.

Section NormalizerClaims.
Local Open Scope string_scope.

(** [round_double] on values of which Python gives the double: the
    literals [0.1], [0.44704] and [0.277778], a third, an integer between
    two doubles (a tie, to the even mantissa), a value below the normal
    range, and the largest integer that still converts. *)
Example round_double_tenth :
  (round_double 0.1 == 3602879701896397 # 36028797018963968)%Q.
Proof. vm_compute. reflexivity. Qed.

Example round_double_mph :
  (round_double 0.44704 == 4026578354839413 # 9007199254740992)%Q.
Proof. vm_compute. reflexivity. Qed.

Example round_double_kmh :
  (round_double 0.277778 == 5004003589166887 # 18014398509481984)%Q.
Proof. vm_compute. reflexivity. Qed.

Example round_double_third :
  (round_double (- (1 # 3)) == - (6004799503160661 # 18014398509481984))%Q.
Proof. vm_compute. reflexivity. Qed.

Example round_double_tie :
  (round_double (inject_Z (2 ^ 53 + 1)) == inject_Z (2 ^ 53))%Q /\
  (round_double (inject_Z (2 ^ 53 + 3)) == inject_Z (2 ^ 53 + 4))%Q.
Proof. split; vm_compute; reflexivity. Qed.

Example round_double_subnormal :
  (round_double ((3 # 2) * pow2 (-1074)) == pow2 (-1073))%Q /\
  (round_double ((1 # 2) * pow2 (-1074)) == 0)%Q.
Proof. split; vm_compute; reflexivity. Qed.

Example to_double_largest :
  to_double (inject_Z (2 ^ 1024 - 2 ^ 970)) = inl OverflowError /\
  exists d, to_double (inject_Z (2 ^ 1024 - 2 ^ 970 - 1)) = inr d /\
            (d == inject_Z (2 ^ 1024 - 2 ^ 971))%Q.
Proof.
  split; [vm_compute; reflexivity|].
  eexists. split; vm_compute; reflexivity.
Qed.

Example sample_openweather_result :
  get_openweather "2026-11-04" (HttpReturns sample_openweather) =
  inr (Some (mkRaw "OpenWeatherMap" (JNum 27.1) (JNum 0.5)
                   (JStr "light rain") (JNum 3.6))).
Proof. reflexivity. Qed.

(** In Python: [10 * 0.44704] is the double [4.4704]. *)
Example sample_weatherapi_result :
  exists x,
    get_weatherapi (HttpReturns sample_weatherapi) =
    inr (Some (mkRaw "WeatherAPI" (JNum 26.5) (JNum 1.2)
                     (JStr "Patchy rain") (JNum x))) /\
    (x == 2516611471774633 # 562949953421312)%Q.
Proof. eexists. split; vm_compute; reflexivity. Qed.

(** In Python: [18 * 0.277778] is the double [5.000004000000001]. *)
Example sample_weatherstack_result :
  exists x,
    get_weatherstack (HttpReturns sample_weatherstack) =
    inr (Some (mkRaw "Weatherstack" (JNum 27) (JNum 0)
                     (JStr "Sunny") (JNum x))) /\
    (x == 1407376009453187 # 281474976710656)%Q.
Proof. eexists. split; vm_compute; reflexivity. Qed.

Example sample_openmeteo_result :
  get_openmeteo "2026-11-04T12:00" (HttpReturns sample_openmeteo) =
  inr (Some (mkRaw "Open-Meteo" (JNum 27) (JNum 2.5)
                   (JStr "Storm") (JNum 4.5))).
Proof. reflexivity. Qed.

(** An integer beyond the range of doubles cannot be multiplied: the
    forecast is absent. *)
Example weatherstack_wind_too_large :
  get_weatherstack
    (HttpReturns (mkResponse 200 (Some (JObj [("current", JObj [
       ("temperature", JNum 27); ("precip", JNum 0);
       ("weather_descriptions", JArr [JStr "Sunny"]);
       ("wind_speed", JNum (inject_Z (10 ^ 400)))])]))))
  = inr None.
Proof. vm_compute. reflexivity. Qed.

Lemma unit_factors :
  (to_ms Mph 1 == 0.44704)%Q /\ is_ms Mph 1 0.44704 /\
  is_ms Kmh 1 0.277778 /\ (forall v, to_ms Ms v = v).
Proof.
  split; [reflexivity|]. split; [|split; [|reflexivity]];
    unfold is_ms; vm_compute; discriminate.
Qed.




End NormalizerClaims.

Section FailSoft.
Local Open Scope string_scope.

Lemma run_unfold (w : world) (p : provider) :
  run w p = try_except_none (run_body w p).
Proof. destruct p; reflexivity. Qed.

Lemma run_body_no_response (w : world) (p : provider) (e : exn) :
  outcome w p = HttpRaises e -> run_body w p = inr None.
Proof. intros O. destruct p; simpl; rewrite O; reflexivity. Qed.

Lemma ok_error_status (r : Response) :
  (400 <= status_code r < 600)%Z -> ok r = false.
Proof.
  intros [L U]. unfold ok.
  apply Z.leb_le in L. apply Z.ltb_lt in U. now rewrite L, U.
Qed.

Lemma run_body_falsy_response (w : world) (p : provider) (r : Response) :
  outcome w p = HttpReturns r -> ok r = false -> run_body w p = inr None.
Proof.
  intros O K.
  destruct p; cbn [run_body]; rewrite O;
    unfold openweather_body, weatherapi_body, openmeteo_body,
      weatherstack_body, retry_get; now rewrite K.
Qed.

Lemma run_no_json (w : world) (p : provider) (r : Response) :
  outcome w p = HttpReturns r -> body r = None -> run w p = inr None.
Proof.
  intros O J. rewrite run_unfold.
  destruct (ok r) eqn:K.
  - apply try_except_none_raise with (e := JSONDecodeError).
    destruct p; cbn [run_body]; rewrite O;
      unfold openweather_body, weatherapi_body, openmeteo_body,
        weatherstack_body, retry_get, response_json; now rewrite K, J.
  - now rewrite (run_body_falsy_response w p r O K).
Qed.

Lemma run_absent (w : world) (p : provider) :
  (forall f, run w p <> inr (Some f)) -> run w p = inr None.
Proof. rewrite run_unfold. apply try_except_none_absent. Qed.

Lemma existsb_is_str (t : string) (l : list json) :
  existsb (is_str t) l = true <-> exists i, list_index t l = Some i.
Proof.
  induction l as [|x l IH]; simpl.
  - split; [discriminate | intros [i E]; discriminate].
  - destruct (is_str t x); simpl.
    + split; eauto.
    + rewrite IH. split; intros [i E].
      * exists (S i). now rewrite E.
      * destruct (list_index t l); [eauto | discriminate].
Qed.

(** The record of a forecast has the shape its normalizer needs. *)
Lemma run_record (w : world) (p : provider) (r : Response) (j : json)
    (f : raw_forecast) :
  outcome w p = HttpReturns r -> body r = Some j ->
  run w p = inr (Some f) ->
  exists x, at_path (record_path p) j = Some x /\ record_shape p x.
Proof.
  intros O J H. destruct p; cbn [run] in H; rewrite O in H.
  - apply openweather_some_iff in H.
    destruct H as (r' & j' & pre & m & post & mm & t & r3 & wl & wm & desc
      & wdm & sp & E & K & J' & P & _).
    injection E as <-. rewrite J in J'. injection J' as <-.
    eexists. split; [exact P|]. simpl. eauto.
  - apply weatherapi_some in H.
    destruct H as (r' & j' & d & t & rn & cm & ct & mph & q & x & E & K & J'
      & P & _).
    injection E as <-. rewrite J in J'. injection J' as <-.
    eexists. split; [exact P|]. simpl. eauto.
  - apply openmeteo_some in H.
    destruct H as (r' & j' & h & tm & i & codes & code & temps & tv & rains
      & rv & winds & wv & E & K & J' & P & _).
    injection E as <-. rewrite J in J'. injection J' as <-.
    eexists. split; [exact P|]. simpl. eauto.
  - apply weatherstack_some in H.
    destruct H as (r' & j' & c & t & rn & ds & d0 & kmh & q & x & E & K & J'
      & P & _).
    injection E as <-. rewrite J in J'. injection J' as <-.
    eexists. split; [exact P|]. simpl. eauto.
Qed.

(** Every place a normalizer needs is there when it returns a forecast. *)
Lemma run_required (w : world) (p : provider) (r : Response)
    (j rec : json) (f : raw_forecast) (q : list step) :
  p <> OpenWeatherMap ->
  outcome w p = HttpReturns r -> body r = Some j ->
  at_path (record_path p) j = Some rec ->
  run w p = inr (Some f) ->
  In q (required_paths p) -> at_path q rec <> None.
Proof.
  intros NP O J P H I. destruct p; [congruence| | |];
    cbn [run] in H; rewrite O in H.
  - apply weatherapi_some in H.
    destruct H as (r' & j' & d & t & rn & cm & ct & mph & v & x & E & K & J'
      & P' & T & R & C & CT & M & _).
    injection E as <-. rewrite J in J'. injection J' as <-.
    rewrite P in P'. injection P' as ->.
    cbn [required_paths In] in I.
    destruct I as [<-|[<-|[<-|[<-|[]]]]]; cbn [at_path];
      rewrite ?T, ?R, ?C, ?CT, ?M; discriminate.
  - apply openmeteo_some in H.
    destruct H as (r' & j' & h & tm & i & codes & code & temps & tv & rains
      & rv & winds & wv & E & K & J' & P' & T & _ & _ & CS & _ & TS & _ & RS
      & _ & WS & _).
    injection E as <-. rewrite J in J'. injection J' as <-.
    rewrite P in P'. injection P' as ->.
    cbn [required_paths In] in I.
    destruct I as [<-|[<-|[<-|[<-|[<-|[]]]]]]; cbn [at_path];
      rewrite ?T, ?CS, ?TS, ?RS, ?WS; discriminate.
  - apply weatherstack_some in H.
    destruct H as (r' & j' & c & t & rn & ds & d0 & kmh & v & x & E & K & J'
      & P' & T & R & D & _ & M & _).
    injection E as <-. rewrite J in J'. injection J' as <-.
    rewrite P in P'. injection P' as ->.
    cbn [required_paths In] in I.
    destruct I as [<-|[<-|[<-|[<-|[]]]]]; cbn [at_path];
      rewrite ?T, ?R, ?D, ?M; discriminate.
Qed.

(** The entry of a forecast of OpenWeatherMap is the first of the target
    time. *)
Lemma first_target_unique (target : string) (pre pre' post post' : list json)
    (e e' : json) :
  (pre ++ e :: post = pre' ++ e' :: post')%list ->
  Forall (fun x => at_target target x = Some false) pre ->
  Forall (fun x => at_target target x = Some false) pre' ->
  at_target target e = Some true -> at_target target e' = Some true ->
  e = e'.
Proof.
  revert pre'. induction pre as [|x pre IH]; intros pre' E F F' M M'.
  - destruct pre' as [|x' pre']; simpl in E.
    + congruence.
    + injection E as -> _. inversion F'; subst. congruence.
  - destruct pre' as [|x' pre']; simpl in E.
    + injection E as -> _. inversion F; subst. congruence.
    + injection E as _ E. inversion F; inversion F'; subst.
      now apply (IH pre').
Qed.

Lemma openweather_required (target : string) (r : Response) (j : json)
    (pre post : list json) (m : list (string * json)) (f : raw_forecast)
    (q : list step) :
  body r = Some j ->
  at_path (record_path OpenWeatherMap) j
    = Some (JArr (pre ++ JObj m :: post)) ->
  Forall (fun x => at_target target x = Some false) pre ->
  at_target target (JObj m) = Some true ->
  get_openweather target (HttpReturns r) = inr (Some f) ->
  In q (required_paths OpenWeatherMap) -> at_path q (JObj m) <> None.
Proof.
  intros J P F M H I. apply openweather_some_iff in H.
  destruct H as (r' & j' & pre' & m' & post' & mm & t & r3 & wl & wm & desc
    & wdm & sp & E & K & J' & P' & F' & M' & MN & T & _ & WL & W0 & DS & WI
    & SP & _).
  injection E as <-. rewrite J in J'. injection J' as <-.
  rewrite P in P'. injection P' as P'.
  pose proof (first_target_unique target _ _ _ _ _ _ P' F F' M M') as X.
  injection X as <-.
  apply getindex_object in W0. destruct W0 as [l [-> W0]].
  cbn [required_paths In] in I.
  destruct I as [<-|[<-|[<-|[]]]]; cbn [at_path];
    rewrite ?MN, ?T, ?WL, ?W0, ?DS, ?WI, ?SP; discriminate.
Qed.

(** C7 as stated fails: a missing field and a malformed field do not always
    give an absent result, and neither does every status outside 2xx.
    Without the [rain] field OpenWeatherMap's forecast is returned with
    rain 0; a temperature that is not a number is returned as it was read;
    and a response of status 301 with its fields is read like one of
    status 200. *)
Lemma normalizer_present_despite_bad_field :
  getitem entry_no_rain "rain" = inl KeyError /\
  get_openweather "2026-11-04" (openweather_response entry_no_rain) =
    inr (Some (mkRaw "OpenWeatherMap" (JNum 27.1) (JNum 0)
                     (JStr "clear sky") (JNum 3.6))) /\
  get_openweather "2026-11-04" (openweather_response entry_no_rain)
    <> inr None /\
  get_openweather "2026-11-04" (openweather_response entry_bad_temp) =
    inr (Some (mkRaw "OpenWeatherMap" (JStr "warm") (JNum 0)
                     (JStr "clear sky") (JNum 3.6))) /\
  well_formed (mkRaw "OpenWeatherMap" (JStr "warm") (JNum 0)
                     (JStr "clear sky") (JNum 3.6)) = false /\
  get_openweather "2026-11-04" (openweather_response entry_bad_temp)
    <> inr None /\
  status_code weatherstack_redirect = 301%Z /\
  get_weatherstack (HttpReturns weatherstack_redirect)
    = get_weatherstack (HttpReturns sample_weatherstack) /\
  get_weatherstack (HttpReturns weatherstack_redirect) <> inr None.
Proof.
  split; [reflexivity|]. split; [reflexivity|]. split; [discriminate|].
  split; [reflexivity|]. split; [reflexivity|]. split; [discriminate|].
  split; [reflexivity|]. split; [reflexivity|].
  vm_compute. discriminate.
Qed.

(** C7, amended: a normalizer never raises and surfaces no error kind.  It
    returns [None] on a network error, on a response of status 400 to 599,
    on a body that is not JSON, when the record of the forecast is missing
    or has the wrong shape, when a place it reads without a default is
    missing, when an index is out of range, when the wind to be multiplied
    is no number or too large a one, and when there is no entry for the
    target time. *)
Theorem normalizers_fail_soft (w : world) :
  (forall p,
     (exists r, run w p = inr r) /\
     (forall e, outcome w p = HttpRaises e -> run w p = inr None) /\
     (forall r, outcome w p = HttpReturns r ->
                (400 <= status_code r < 600)%Z -> run w p = inr None) /\
     (forall r, outcome w p = HttpReturns r -> body r = None ->
                run w p = inr None)) /\
  (forall p r j,
     outcome w p = HttpReturns r -> body r = Some j ->
     (forall x, at_path (record_path p) j = Some x -> ~ record_shape p x) ->
     run w p = inr None) /\
  (forall p r j rec q,
     p <> OpenWeatherMap ->
     outcome w p = HttpReturns r -> body r = Some j ->
     at_path (record_path p) j = Some rec ->
     In q (required_paths p) -> at_path q rec = None ->
     run w p = inr None) /\
  (forall r j pre m post q,
     outcome w OpenWeatherMap = HttpReturns r -> body r = Some j ->
     at_path (record_path OpenWeatherMap) j
       = Some (JArr (pre ++ JObj m :: post)) ->
     Forall (fun x => at_target (target_date w) x = Some false) pre ->
     at_target (target_date w) (JObj m) = Some true ->
     In q (required_paths OpenWeatherMap) -> at_path q (JObj m) = None ->
     run w OpenWeatherMap = inr None) /\
  (forall r j days,
     outcome w WeatherAPI = HttpReturns r -> body r = Some j ->
     at_path [Key "forecast"; Key "forecastday"] j = Some (JArr days) ->
     (length days < 2)%nat ->
     run w WeatherAPI = inr None) /\
  (forall r j,
     outcome w Weatherstack = HttpReturns r -> body r = Some j ->
     at_path [Key "current"; Key "weather_descriptions"] j
       = Some (JArr []) ->
     run w Weatherstack = inr None) /\
  (forall r j h ts i k a,
     outcome w OpenMeteo = HttpReturns r -> body r = Some j ->
     at_path (record_path OpenMeteo) j = Some (JObj h) ->
     assoc "time" h = Some (JArr ts) ->
     list_index (target_hour w) ts = Some i ->
     In k hourly_arrays -> assoc k h = Some (JArr a) ->
     (length a <= i)%nat ->
     run w OpenMeteo = inr None) /\
  (forall p r j x,
     p = WeatherAPI \/ p = Weatherstack ->
     outcome w p = HttpReturns r -> body r = Some j ->
     at_path (record_path p ++ [Key (wind_key p)]) j = Some x ->
     as_number x = None \/
     (exists v e, as_number x = Some v /\
                  float_times v (wind_factor p) = inl e) ->
     run w p = inr None) /\
  (forall r j entries,
     outcome w OpenWeatherMap = HttpReturns r -> body r = Some j ->
     at_path (record_path OpenWeatherMap) j = Some (JArr entries) ->
     Forall (fun x => at_target (target_date w) x = Some false) entries ->
     run w OpenWeatherMap = inr None) /\
  (forall r j h ts,
     outcome w OpenMeteo = HttpReturns r -> body r = Some j ->
     at_path (record_path OpenMeteo) j = Some (JObj h) ->
     assoc "time" h = Some (JArr ts) ->
     list_index (target_hour w) ts = None ->
     run w OpenMeteo = inr None).
Proof.
  split; [|split; [|split; [|split; [|split; [|split; [|split; [|split;
    [|split]]]]]]]].
  - intros p. split; [|split; [|split]].
    + rewrite run_unfold. apply try_except_none_total.
    + intros e O. rewrite run_unfold.
      now rewrite (run_body_no_response w p e O).
    + intros r O S. rewrite run_unfold.
      now rewrite (run_body_falsy_response w p r O (ok_error_status r S)).
    + apply run_no_json.
  - intros p r j O J N. apply run_absent. intros f H.
    destruct (run_record w p r j f O J H) as [x [P S]].
    exact (N x P S).
  - intros p r j rec q NP O J P I A. apply run_absent. intros f H.
    exact (run_required w p r j rec f q NP O J P H I A).
  - intros r j pre m post q O J P F M I A. apply run_absent. intros f H.
    cbn [run] in H. rewrite O in H.
    exact (openweather_required _ r j pre post m f q J P F M H I A).
  - intros r j days O J P L. apply run_absent. intros f H.
    destruct (run_record w WeatherAPI r j f O J H) as [x [P' _]].
    change (record_path WeatherAPI)
      with ([Key "forecast"; Key "forecastday"] ++ [Idx 1; Key "day"])%list
      in P'.
    rewrite at_path_app, P in P'. cbn [at_path] in P'.
    destruct (nth_error days 1) eqn:N; [|discriminate].
    assert (X : nth_error days 1 <> None) by congruence.
    apply nth_error_Some in X. lia.
  - intros r j O J P. apply run_absent. intros f H.
    cbn [run] in H. rewrite O in H. apply weatherstack_some in H.
    destruct H as (r' & j' & c & t & rn & ds & d0 & kmh & v & x & E & K & J'
      & P' & _ & _ & D & D0 & _).
    injection E as <-. rewrite J in J'. injection J' as <-.
    change [Key "current"; Key "weather_descriptions"]
      with (record_path Weatherstack ++ [Key "weather_descriptions"])%list
      in P.
    rewrite at_path_app, P' in P. cbn [at_path] in P. rewrite D in P.
    injection P as ->. discriminate.
  - intros r j h ts i k a O J P T I K A L. apply run_absent. intros f H.
    cbn [run] in H. rewrite O in H. apply openmeteo_some in H.
    destruct H as (r' & j' & h' & tm & i' & codes & code & temps & tv
      & rains & rv & winds & wv & E & _ & J' & P' & T' & _ & I' & CS & CD
      & TS & TV & RS & RV & WS & WV & _).
    injection E as <-. rewrite J in J'. injection J' as <-.
    rewrite P in P'. injection P' as <-.
    rewrite T in T'. injection T' as <-.
    cbn [index_str] in I'. rewrite I in I'. injection I' as <-.
    assert (X : forall y, getindex (JArr a) i <> inr y).
    { intros y Y. apply getindex_array in Y.
      assert (Z : nth_error a i <> None) by congruence.
      apply nth_error_Some in Z. lia. }
    cbn [hourly_arrays In] in K.
    destruct K as [<-|[<-|[<-|[<-|[]]]]].
    + rewrite A in CS. injection CS as <-. exact (X _ CD).
    + rewrite A in TS. injection TS as <-. exact (X _ TV).
    + rewrite A in RS. injection RS as <-. exact (X _ RV).
    + rewrite A in WS. injection WS as <-. exact (X _ WV).
  - intros p r j x Hp O J P B. apply run_absent. intros f H.
    rewrite at_path_app in P.
    destruct Hp as [-> | ->]; cbn [run] in H; rewrite O in H.
    + apply weatherapi_some in H.
      destruct H as (r' & j' & d & t & rn & cm & ct & mph & v & y & E & K
        & J' & P' & _ & _ & _ & _ & M & N & F & _).
      injection E as <-. rewrite J in J'. injection J' as <-.
      rewrite P' in P. cbn [at_path wind_key] in P. rewrite M in P.
      injection P as <-. cbn [wind_factor] in B.
      destruct B as [B|[v' [e [B F']]]]; [congruence|].
      rewrite N in B. injection B as <-. congruence.
    + apply weatherstack_some in H.
      destruct H as (r' & j' & c & t & rn & ds & d0 & kmh & v & y & E & K
        & J' & P' & _ & _ & _ & _ & M & N & F & _).
      injection E as <-. rewrite J in J'. injection J' as <-.
      rewrite P' in P. cbn [at_path wind_key] in P. rewrite M in P.
      injection P as <-. cbn [wind_factor] in B.
      destruct B as [B|[v' [e [B F']]]]; [congruence|].
      rewrite N in B. injection B as <-. congruence.
  - intros r j entries O J P F. apply run_absent. intros f H.
    cbn [run] in H. rewrite O in H. apply openweather_some_iff in H.
    destruct H as (r' & j' & pre & m & post & mm & t & r3 & wl & wm & desc
      & wdm & sp & E & K & J' & P' & _ & M & _).
    injection E as <-. rewrite J in J'. injection J' as <-.
    rewrite P in P'. injection P' as ->.
    rewrite Forall_forall in F.
    rewrite (F (JObj m) (in_elt _ _ _)) in M. discriminate.
  - intros r j h ts O J P T I. apply run_absent. intros f H.
    cbn [run] in H. rewrite O in H. apply openmeteo_some in H.
    destruct H as (r' & j' & h' & tm & i' & codes & code & temps & tv
      & rains & rv & winds & wv & E & _ & J' & P' & T' & C & _).
    injection E as <-. rewrite J in J'. injection J' as <-.
    rewrite P in P'. injection P' as <-.
    rewrite T in T'. injection T' as <-.
    cbn [contains_str ret] in C. injection C as C.
    apply existsb_is_str in C. destruct C as [i C]. congruence.
Qed.

Lemma normalizers_fail_soft_witness :
  run degraded_world WeatherAPI = inr None /\
  run degraded_world Weatherstack = inr None /\
  run (world_of "" "" (mkResponse 503 None)) OpenMeteo = inr None /\
  run (world_of "" "" (mkResponse 200 (Some weatherapi_short_body)))
      WeatherAPI = inr None /\
  run (world_of "" "" (mkResponse 200 (Some weatherstack_no_description)))
      Weatherstack = inr None /\
  run (world_of "" "" (mkResponse 200 (Some weatherstack_text_wind)))
      Weatherstack = inr None /\
  run (world_of "2026-11-05" "" sample_openweather) OpenWeatherMap
    = inr None /\
  run (world_of "" "2026-11-05T12:00" sample_openmeteo) OpenMeteo
    = inr None.
Proof.
  split; [|split; [|split; [|split; [|split; [|split; [|split]]]]]].
  - destruct (proj1 (normalizers_fail_soft degraded_world) WeatherAPI)
      as [_ [N _]].
    exact (N RequestException eq_refl).
  - apply (proj1 (proj2 (normalizers_fail_soft degraded_world))
             Weatherstack
             (mkResponse 200 (Some (JObj [("success", JBool false)])))
             (JObj [("success", JBool false)]) eq_refl eq_refl).
    intros x P. discriminate P.
  - destruct (proj1 (normalizers_fail_soft
                       (world_of "" "" (mkResponse 503 None))) OpenMeteo)
      as [_ [_ [S _]]].
    apply (S (mkResponse 503 None) eq_refl). simpl. lia.
  - apply (proj1 (proj2 (proj2 (normalizers_fail_soft
             (world_of "" "" (mkResponse 200 (Some weatherapi_short_body))))))
             WeatherAPI (mkResponse 200 (Some weatherapi_short_body))
             weatherapi_short_body (JObj [("avgtemp_c", JNum 26)])
             [Key "maxwind_mph"]);
      [discriminate | reflexivity | reflexivity | reflexivity
       | simpl; tauto | reflexivity].
  - apply (proj1 (proj2 (proj2 (proj2 (proj2 (proj2
             (normalizers_fail_soft
                (world_of "" ""
                   (mkResponse 200 (Some weatherstack_no_description)))))))))
             (mkResponse 200 (Some weatherstack_no_description))
             weatherstack_no_description eq_refl eq_refl).
    reflexivity.
  - apply (proj1 (proj2 (proj2 (proj2 (proj2 (proj2 (proj2 (proj2
             (normalizers_fail_soft
                (world_of "" ""
                   (mkResponse 200 (Some weatherstack_text_wind)))))))))))
             Weatherstack (mkResponse 200 (Some weatherstack_text_wind))
             weatherstack_text_wind (JStr "18 km/h"));
      [now right | reflexivity | reflexivity | reflexivity | now left].
  - apply (proj1 (proj2 (proj2 (proj2 (proj2 (proj2 (proj2 (proj2 (proj2
             (normalizers_fail_soft
                (world_of "2026-11-05" "" sample_openweather))))))))))
             sample_openweather _ _ eq_refl eq_refl eq_refl).
    repeat constructor.
  - apply (proj2 (proj2 (proj2 (proj2 (proj2 (proj2 (proj2 (proj2 (proj2
             (normalizers_fail_soft
                (world_of "" "2026-11-05T12:00" sample_openmeteo))))))))))
             sample_openmeteo _ _ _ eq_refl eq_refl eq_refl eq_refl).
    reflexivity.
Defined.

End FailSoft.

(** ** Fetch orchestrator

    The sequential content of [fetch_all]: whatever the completion order,
    the batch holds exactly the present results, in that order. *)

Section Orchestrator.

Lemma fold_collect (rs : list (result (option raw_forecast)))
    (acc : list raw_forecast) :
  fold_left collect rs acc =
  acc ++ flat_map (fun r => match r with
                            | inr (Some f) => [f]
                            | _ => []
                            end) rs.
Proof.
  revert acc. induction rs as [|r rs IH]; intros acc; simpl.
  - now rewrite app_nil_r.
  - rewrite IH. destruct r as [e|[f|]]; simpl; trivial.
    now rewrite <- app_assoc.
Qed.

Lemma fetch_all_present (w : world) (completed : list provider) :
  fetch_all w completed = flat_map (present w) completed.
Proof.
  unfold fetch_all. rewrite fold_collect. simpl.
  induction completed as [|p ps IH]; simpl; [reflexivity|].
  now rewrite IH.
Qed.

Lemma fetch_all_degraded (completed : list provider) :
  Permutation completed [OpenWeatherMap; WeatherAPI; OpenMeteo; Weatherstack] ->
  length (fetch_all degraded_world completed) = 2%nat.
Proof.
  intros P. rewrite fetch_all_present.
  rewrite (Permutation_length (Permutation_flat_map _ P)). reflexivity.
Qed.

End Orchestrator.

(** * Further properties of the engine *)

(** ** Confidence engine *)

Section Confidence.

Lemma Qabs_cases (t : Q) :
  (0 <= t /\ Qabs t == t) \/ (t < 0 /\ Qabs t == - t).
Proof.
  destruct (Qlt_le_dec t 0) as [L|L].
  - right. split; [exact L | apply Qabs_neg; lra].
  - left. split; [exact L | now apply Qabs_pos].
Qed.

Lemma divergence_nonneg (f1 f2 : forecast) : 0 <= divergence f1 f2.
Proof.
  unfold divergence.
  pose proof (Qabs_nonneg (temp f1 - temp f2)).
  pose proof (Qabs_nonneg (rain f1 - rain f2)). lra.
Qed.

Lemma divergence_zero (f1 f2 : forecast) :
  divergence f1 f2 <= 0 <-> temp f1 == temp f2 /\ rain f1 == rain f2.
Proof.
  unfold divergence.
  destruct (Qabs_cases (temp f1 - temp f2)) as [[T ET]|[T ET]];
    destruct (Qabs_cases (rain f1 - rain f2)) as [[R ER]|[R ER]];
    rewrite ET, ER; split; intros H;
    try match type of H with _ /\ _ => destruct H end; try split; lra.
Qed.

(** The score is 100 minus the divergence, cut at 0. *)
Lemma weighted_confidence_cases (f1 f2 : forecast) :
  (100 <= divergence f1 f2 /\ weighted_confidence f1 f2 == 0) \/
  (divergence f1 f2 < 100 /\
   weighted_confidence f1 f2 == 100 - divergence f1 f2).
Proof.
  pose proof (divergence_nonneg f1 f2) as N.
  change (weighted_confidence f1 f2)
    with (py_max2 0 (py_min2 (100 - divergence f1 f2) 100)).
  revert N. generalize (divergence f1 f2). intros d N.
  unfold py_max2, py_min2.
  destruct (Qltb 100 (100 - d)) eqn:C;
    [apply Qltb_lt in C | apply Qltb_ge in C]; qcases; lra.
Qed.

(** X2: two forecasts that give the same temperature and the same
    rainfall score 100. *)
Theorem weighted_confidence_agreeing (f1 f2 : forecast) :
  temp f1 == temp f2 -> rain f1 == rain f2 ->
  weighted_confidence f1 f2 == 100.
Proof.
  intros T R.
  assert (D : divergence f1 f2 <= 0) by (apply divergence_zero; now split).
  pose proof (divergence_nonneg f1 f2) as N.
  destruct (weighted_confidence_cases f1 f2) as [[A E]|[A E]];
    rewrite E; lra.
Qed.

Lemma weighted_confidence_agreeing_witness :
  weighted_confidence (mkForecast "A" 27.5 1.2 "Clear" 2)
                      (mkForecast "B" 27.5 1.2 "Rain" 9) == 100.
Proof. apply weighted_confidence_agreeing; reflexivity. Defined.

(** X4: the score reads the temperature and the rainfall only: forecasts
    that agree on these two get the same score, whatever their wind,
    condition and source. *)
Theorem weighted_confidence_reads_temp_rain (f1 f2 g1 g2 : forecast) :
  temp f1 == temp g1 -> rain f1 == rain g1 ->
  temp f2 == temp g2 -> rain f2 == rain g2 ->
  weighted_confidence f1 f2 == weighted_confidence g1 g2.
Proof.
  intros T1 R1 T2 R2.
  assert (D : divergence f1 f2 == divergence g1 g2).
  { unfold divergence. now rewrite T1, R1, T2, R2. }
  destruct (weighted_confidence_cases f1 f2) as [[A E]|[A E]];
    destruct (weighted_confidence_cases g1 g2) as [[B F]|[B F]];
    rewrite E, F; lra.
Qed.

Lemma weighted_confidence_reads_temp_rain_witness :
  weighted_confidence (mkForecast "A" 20 1 "Clear" 2)
                      (mkForecast "B" 22 0 "Rain" 3) ==
  weighted_confidence (mkForecast "C" 20 1 "Storm" 30)
                      (mkForecast "D" 22 0 "Sunny" 0).
Proof.
  apply weighted_confidence_reads_temp_rain; reflexivity.
Defined.

End Confidence.

(** ** Severity detector and recommendation generator *)

Section SeverityAndAdvice.
Local Open Scope string_scope.

(** X5: whatever the condition, the rainfall and the wind are, the alert
    message is present exactly when the forecast is flagged severe. *)
Theorem detect_severe_alert_iff_severe (cond : pystr) (rain wind : Q) :
  exists b m, detect_severe cond rain wind = inr (b, m) /\
              (b = true <-> m <> None).
Proof.
  destruct (storm_text_total cond) as [s E].
  rewrite (detect_severe_unfold cond rain wind s E).
  destruct s.
  - do 2 eexists. split; [reflexivity|]. split; [discriminate | trivial].
  - unfold by_thresholds.
    destruct (Qltb 10 rain); [|destruct (Qltb 10 wind)];
      do 2 eexists; (split; [reflexivity|]); split;
      try discriminate; trivial; intros N; now contradiction N.
Qed.

Lemma lower_empty (s : string) : (lower s =? "") = (s =? "").
Proof. now destruct s. Qed.

(** X6: the condition text is read without regard to case: two texts with
    the same lower case are classified alike. *)
Theorem detect_severe_ignores_case (s1 s2 : string) (rain wind : Q) :
  lower s1 = lower s2 ->
  detect_severe (Some s1) rain wind = detect_severe (Some s2) rain wind.
Proof.
  intros L. unfold detect_severe, storm_text, truthy, str_lower.
  rewrite <- (lower_empty s1), <- (lower_empty s2), L. reflexivity.
Qed.

Lemma detect_severe_ignores_case_witness :
  detect_severe (Some "TROPICAL Storm") 0 0
  = detect_severe (Some "tropical STORM") 0 0.
Proof. apply detect_severe_ignores_case. reflexivity. Defined.

(** X7: more rain and more wind never lift a severe flag: a forecast flagged
    severe stays severe when its rainfall and wind grow. *)
Theorem detect_severe_monotone (cond : pystr) (rain wind rain' wind' : Q)
    (m : option string) :
  detect_severe cond rain wind = inr (true, m) ->
  rain <= rain' -> wind <= wind' ->
  exists m', detect_severe cond rain' wind' = inr (true, m').
Proof.
  destruct (storm_text_total cond) as [s E].
  rewrite !(detect_severe_unfold cond _ _ s E).
  destruct s; [eauto|]. unfold by_thresholds. intros H R W.
  destruct (Qltb 10 rain) eqn:A; [apply Qltb_lt in A | apply Qltb_ge in A].
  - assert (A' : Qltb 10 rain' = true) by (apply Qltb_lt; lra).
    rewrite A'. eauto.
  - destruct (Qltb 10 wind) eqn:B;
      [apply Qltb_lt in B | discriminate].
    assert (B' : Qltb 10 wind' = true) by (apply Qltb_lt; lra).
    rewrite B'. destruct (Qltb 10 rain'); eauto.
Qed.

Lemma detect_severe_monotone_witness :
  exists m', detect_severe (Some "Clear skies") 3 40 = inr (true, m').
Proof.
  apply (detect_severe_monotone (Some "Clear skies") 0 12 3 40
           (Some (strong_wind_msg 12))).
  - reflexivity.
  - discriminate.
  - discriminate.
Defined.

Lemma rainy_text_iff (text : string) :
  str_in "rain" (lower text) || str_in "storm" (lower text) = true
  <-> rain_or_storm text.
Proof.
  unfold rain_or_storm.
  rewrite <- !str_in_lower_iff by reflexivity.
  rewrite orb_true_iff. reflexivity.
Qed.

Lemma adaptive_recommendation_unfold
    (sample : list string -> nat -> list string)
    (text label : string) :
  label <> "Low" ->
  adaptive_recommendation sample (Some text) label =
  inr (String.concat ", "
         (sample (if str_in "rain" (lower text) || str_in "storm" (lower text)
                  then RECOMMENDATIONS_RAINY else RECOMMENDATIONS_SUNNY)
                 2%nat)).
Proof.
  intros N. unfold adaptive_recommendation.
  destruct (String.eqb_spec label "Low") as [->|_]; [congruence|].
  cbn [str_lower bind ret].
  destruct (str_in "rain" (lower text)); cbn [bind ret orb]; trivial.
  destruct (str_in "storm" (lower text)); reflexivity.
Qed.

Lemma recommendations_nodup :
  NoDup RECOMMENDATIONS_RAINY /\ NoDup RECOMMENDATIONS_SUNNY.
Proof.
  split; repeat constructor; simpl; intuition discriminate.
Qed.

Lemma sample_two (sample : list string -> nat -> list string)
    (l : list string) :
  sample_spec sample -> (2 <= length l)%nat -> NoDup l ->
  exists a b, a <> b /\ In a l /\ In b l /\
              String.concat ", " (sample l 2%nat) = a ++ ", " ++ b.
Proof.
  intros S L N. destruct (S l 2%nat L N) as [Len [D I]].
  destruct (sample l 2%nat) as [|a [|b [|c r]]]; try discriminate.
  exists a, b. inversion D as [|? ? Na _]; subst.
  repeat split.
  - intros ->. apply Na. now left.
  - apply I. now left.
  - apply I. right. now left.
Qed.

(** X8: for every label other than "Low" the recommendation is two
    distinct suggestions joined by a comma, taken from the indoor list when
    the condition text contains "rain" or "storm" in any case and from the
    outdoor list otherwise; a missing condition raises [AttributeError]. *)
Theorem adaptive_recommendation_selects
    (sample : list string -> nat -> list string) (text label : string) :
  sample_spec sample -> label <> "Low" ->
  (exists a b,
     a <> b /\
     adaptive_recommendation sample (Some text) label
       = inr (a ++ ", " ++ b) /\
     (rain_or_storm text ->
        In a RECOMMENDATIONS_RAINY /\ In b RECOMMENDATIONS_RAINY) /\
     (~ rain_or_storm text ->
        In a RECOMMENDATIONS_SUNNY /\ In b RECOMMENDATIONS_SUNNY)) /\
  adaptive_recommendation sample None label = inl AttributeError.
Proof.
  intros S N. split.
  - rewrite (adaptive_recommendation_unfold sample text label N).
    pose proof (rainy_text_iff text) as R.
    destruct recommendations_nodup as [DR DS].
    destruct (str_in "rain" (lower text) || str_in "storm" (lower text)).
    + destruct (sample_two sample RECOMMENDATIONS_RAINY S) as
        [a [b [AB [Ia [Ib E]]]]]; [simpl; lia | exact DR |].
      exists a, b. rewrite E.
      split; [exact AB|]. split; [reflexivity|]. split; [now split|].
      intros X. exfalso. apply X. now apply R.
    + destruct (sample_two sample RECOMMENDATIONS_SUNNY S) as
        [a [b [AB [Ia [Ib E]]]]]; [simpl; lia | exact DS |].
      exists a, b. rewrite E.
      split; [exact AB|]. split; [reflexivity|]. split; [|now split].
      intros X. apply R in X. discriminate.
  - unfold adaptive_recommendation.
    destruct (String.eqb_spec label "Low") as [->|_]; [congruence|].
    reflexivity.
Qed.

Lemma firstn_sample_spec : sample_spec (fun l n => firstn n l).
Proof.
  intros l k L N. split; [|split].
  - rewrite length_firstn. lia.
  - rewrite <- (firstn_skipn k l) in N. now apply NoDup_app_remove_r in N.
  - intros x I. rewrite <- (firstn_skipn k l). apply in_or_app. now left.
Qed.

Lemma adaptive_recommendation_selects_witness :
  adaptive_recommendation (fun l n => firstn n l) None "High"
    = inl AttributeError.
Proof.
  apply (adaptive_recommendation_selects (fun l n => firstn n l)
           "Light rain" "High").
  - exact firstn_sample_spec.
  - discriminate.
Defined.

(** X9: a condition text containing "storm" is flagged severe and, unless
    the label is "Low", answered from the indoor list. *)
Theorem storm_is_severe_and_indoor
    (sample : list string -> nat -> list string) (text label : string)
    (rain wind : Q) :
  contains_nocase "storm" text -> label <> "Low" ->
  detect_severe (Some text) rain wind = inr (true, Some storm_msg) /\
  adaptive_recommendation sample (Some text) label
    = inr (String.concat ", " (sample RECOMMENDATIONS_RAINY 2%nat)).
Proof.
  intros S N. split.
  - rewrite (detect_severe_unfold _ rain wind true); [reflexivity|].
    apply storm_text_iff. now left.
  - rewrite (adaptive_recommendation_unfold sample text label N).
    assert (R : rain_or_storm text) by now right.
    apply rainy_text_iff in R. now rewrite R.
Qed.

Lemma storm_is_severe_and_indoor_witness :
  detect_severe (Some "Thunderstorm") 0 0 = inr (true, Some storm_msg).
Proof.
  apply (storm_is_severe_and_indoor (fun l n => firstn n l)
           "Thunderstorm" "High" 0 0).
  - apply str_in_lower_iff; reflexivity.
  - discriminate.
Defined.

(** X10: a condition text containing "cyclone" but neither "rain" nor
    "storm" is flagged severe while, unless the label is "Low", the
    recommendation is drawn from the outdoor list. *)
Theorem cyclone_is_severe_but_outdoor
    (sample : list string -> nat -> list string) (text label : string)
    (rain wind : Q) :
  contains_nocase "cyclone" text -> ~ rain_or_storm text ->
  label <> "Low" ->
  detect_severe (Some text) rain wind = inr (true, Some storm_msg) /\
  adaptive_recommendation sample (Some text) label
    = inr (String.concat ", " (sample RECOMMENDATIONS_SUNNY 2%nat)).
Proof.
  intros C R N. split.
  - rewrite (detect_severe_unfold _ rain wind true); [reflexivity|].
    apply storm_text_iff. now right.
  - rewrite (adaptive_recommendation_unfold sample text label N).
    destruct (str_in "rain" (lower text) || str_in "storm" (lower text))
      eqn:E; trivial.
    apply rainy_text_iff in E. contradiction.
Qed.

Lemma cyclone_is_severe_but_outdoor_witness :
  detect_severe (Some "Tropical Cyclone") 0 0
    = inr (true, Some storm_msg) /\
  adaptive_recommendation (fun l n => firstn n l)
    (Some "Tropical Cyclone") "High"
    = inr ("Visit the beaches of Pacific Harbour, " ++
           "Take a trip to Colo-i-Suva Forest Park").
Proof.
  apply (cyclone_is_severe_but_outdoor (fun l n => firstn n l)
           "Tropical Cyclone" "High" 0 0).
  - apply str_in_lower_iff; reflexivity.
  - intros R. apply rainy_text_iff in R. discriminate.
  - discriminate.
Defined.

End SeverityAndAdvice.

(** ** Summary aggregator *)

Section SummaryOrder.

Lemma summarize_inr (pstdev : list Q -> Q) (fs : list forecast)
    (s : summary) :
  summarize pstdev fs = inr s ->
  fs <> [] /\
  is_min (fst (temp_range s)) (map temp fs) /\
  is_max (snd (temp_range s)) (map temp fs) /\
  is_min (fst (rain_range s)) (map rain fs) /\
  is_max (snd (rain_range s)) (map rain fs) /\
  conditions s = sorted (condition_set fs).
Proof.
  destruct fs as [|f fs]; [discriminate|].
  rewrite summarize_cons. intros E. injection E as <-.
  cbn [temp_range rain_range conditions fst snd].
  split; [discriminate|].
  split; [apply (fold_min_spec (map temp fs))|].
  split; [apply (fold_max_spec (map temp fs))|].
  split; [apply (fold_min_spec (map rain fs))|].
  split; [apply (fold_max_spec (map rain fs)) | reflexivity].
Qed.

Lemma min_le_max (m M : Q) (v : list Q) :
  is_min m v -> is_max M v -> m <= M.
Proof.
  intros [I _] [_ F]. rewrite Forall_forall in F. now apply F.
Qed.

Lemma insert_sorted_length (x : string) (l : list string) :
  length (insert_sorted x l) = S (length l).
Proof.
  induction l as [|y l IH]; simpl; trivial.
  destruct (String.leb x y); simpl; congruence.
Qed.

Lemma sorted_length (l : list string) : length (sorted l) = length l.
Proof.
  induction l as [|x l IH]; simpl; trivial.
  now rewrite insert_sorted_length, IH.
Qed.

(** X11: in every summary the minimum of a range is at most its maximum,
    and the number of conditions is at least one and at most the number of
    forecasts. *)
Theorem summarize_ranges_ordered (pstdev : list Q -> Q)
    (fs : list forecast) (s : summary) :
  summarize pstdev fs = inr s ->
  fst (temp_range s) <= snd (temp_range s) /\
  fst (rain_range s) <= snd (rain_range s) /\
  (1 <= length (conditions s) <= length fs)%nat.
Proof.
  intros E. destruct (summarize_inr _ _ _ E) as [N [A [B [C [D K]]]]].
  split; [exact (min_le_max _ _ _ A B)|].
  split; [exact (min_le_max _ _ _ C D)|].
  rewrite K, sorted_length. unfold condition_set. split.
  - destruct fs as [|f fs]; [congruence|].
    assert (I : In (condition f) (nodup string_dec (map condition (f :: fs))))
      by (apply nodup_In; now left).
    destruct (nodup string_dec (map condition (f :: fs)));
      [destruct I | simpl; lia].
  - rewrite <- (length_map condition fs).
    apply NoDup_incl_length; [apply NoDup_nodup|].
    intros c I. now apply nodup_In in I.
Qed.

Lemma summarize_ranges_ordered_witness :
  exists s,
    summarize pstdev_pair
      [mkForecast "A" 25 0 "Rain" 3; mkForecast "B" 20 5 "Rain" 4] = inr s /\
    fst (temp_range s) <= snd (temp_range s) /\
    length (conditions s) = 1%nat.
Proof.
  eexists. split; [reflexivity|].
  split; [|reflexivity].
  apply (summarize_ranges_ordered pstdev_pair
           [mkForecast "A" 25 0 "Rain" 3; mkForecast "B" 20 5 "Rain" 4]).
  reflexivity.
Defined.

Lemma ltb_lt (a b : string) :
  String.ltb a b = true <-> OrdersEx.String_as_OT.lt a b.
Proof.
  unfold String.ltb, OrdersEx.String_as_OT.lt.
  change (OrdersEx.String_as_OT.compare a b) with (String.compare a b).
  destruct (String.compare a b); split; congruence.
Qed.

Lemma ltb_trans (a b c : string) :
  String.ltb a b = true -> String.ltb b c = true -> String.ltb a c = true.
Proof.
  rewrite !ltb_lt.
  apply (@StrictOrder_Transitive _ _ OrdersEx.String_as_OT.lt_strorder).
Qed.

Lemma ltb_irrefl (a : string) : String.ltb a a = false.
Proof.
  destruct (String.ltb a a) eqn:E; trivial.
  apply ltb_lt in E. exfalso.
  exact (@StrictOrder_Irreflexive _ _
           OrdersEx.String_as_OT.lt_strorder a E).
Qed.

Lemma increasing_head (a : string) (l : list string) :
  increasing (a :: l) ->
  increasing l /\ Forall (fun b => String.ltb a b = true) l.
Proof.
  intros S. apply Sorted_StronglySorted in S.
  - inversion S; subst. split; trivial. now apply StronglySorted_Sorted.
  - intros x y z. apply ltb_trans.
Qed.

(** Two increasing lists with the same elements are the same list. *)
Lemma increasing_unique (l1 l2 : list string) :
  increasing l1 -> increasing l2 ->
  (forall c, In c l1 <-> In c l2) -> l1 = l2.
Proof.
  revert l2. induction l1 as [|a l1 IH]; intros l2 S1 S2 I.
  - destruct l2 as [|b l2]; trivial.
    exfalso. apply (I b). now left.
  - destruct l2 as [|b l2]; [exfalso; apply (I a); now left|].
    apply increasing_head in S1. destruct S1 as [S1 F1].
    apply increasing_head in S2. destruct S2 as [S2 F2].
    rewrite Forall_forall in F1, F2.
    assert (E : a = b).
    { destruct (proj1 (I a) (or_introl eq_refl)) as [E|Ia]; [congruence|].
      destruct (proj2 (I b) (or_introl eq_refl)) as [E|Ib]; [congruence|].
      pose proof (ltb_trans _ _ _ (F1 _ Ib) (F2 _ Ia)) as T.
      rewrite ltb_irrefl in T. discriminate. }
    subst b. f_equal. apply IH; trivial.
    intros c. split; intros J.
    + destruct (proj1 (I c) (or_intror J)) as [E|K]; trivial.
      subst c. pose proof (F1 _ J) as T. rewrite ltb_irrefl in T.
      discriminate.
    + destruct (proj2 (I c) (or_intror J)) as [E|K]; trivial.
      subst c. pose proof (F2 _ J) as T. rewrite ltb_irrefl in T.
      discriminate.
Qed.

Lemma is_min_perm (m m' : Q) (v v' : list Q) :
  Permutation v v' -> is_min m v -> is_min m' v' -> m' == m.
Proof.
  intros P [I F] [I' F']. rewrite Forall_forall in F, F'.
  apply Qle_antisym.
  - apply F'. now apply (Permutation_in _ P).
  - apply F. now apply (Permutation_in _ (Permutation_sym P)).
Qed.

Lemma is_max_perm (m m' : Q) (v v' : list Q) :
  Permutation v v' -> is_max m v -> is_max m' v' -> m' == m.
Proof.
  intros P [I F] [I' F']. rewrite Forall_forall in F, F'.
  apply Qle_antisym.
  - apply F. now apply (Permutation_in _ (Permutation_sym P)).
  - apply F'. now apply (Permutation_in _ P).
Qed.

(** X12: the ranges and the conditions of a summary do not depend on the
    order in which the forecasts arrived. *)
Theorem summarize_order_independent (pstdev : list Q -> Q)
    (fs fs' : list forecast) (s : summary) :
  Permutation fs fs' -> summarize pstdev fs = inr s ->
  exists s', summarize pstdev fs' = inr s' /\
    conditions s' = conditions s /\
    fst (temp_range s') == fst (temp_range s) /\
    snd (temp_range s') == snd (temp_range s) /\
    fst (rain_range s') == fst (rain_range s) /\
    snd (rain_range s') == snd (rain_range s).
Proof.
  intros P E. destruct (summarize_inr _ _ _ E) as [N [A [B [C [D K]]]]].
  destruct fs' as [|f' r'].
  { apply Permutation_sym, Permutation_nil in P. congruence. }
  eexists. split; [apply summarize_cons|].
  cbn [temp_range rain_range conditions fst snd].
  pose proof (Permutation_map temp P) as PT.
  pose proof (Permutation_map rain P) as PR.
  split; [|split; [|split; [|split]]].
  - rewrite K.
    destruct (conditions_spec fs) as [S1 [_ I1]].
    destruct (conditions_spec (f' :: r')) as [S2 [_ I2]].
    apply increasing_unique; trivial.
    intros c. rewrite I1, I2. split; intros [f [J Ec]]; exists f; split;
      trivial.
    + now apply (Permutation_in _ (Permutation_sym P)).
    + now apply (Permutation_in _ P).
  - exact (is_min_perm _ _ _ _ PT A (fold_min_spec (map temp r') (temp f'))).
  - exact (is_max_perm _ _ _ _ PT B (fold_max_spec (map temp r') (temp f'))).
  - exact (is_min_perm _ _ _ _ PR C (fold_min_spec (map rain r') (rain f'))).
  - exact (is_max_perm _ _ _ _ PR D (fold_max_spec (map rain r') (rain f'))).
Qed.

Lemma summarize_order_independent_witness :
  exists s', 
    summarize pstdev_pair
      [mkForecast "B" 25 5 "Clear" 4; mkForecast "A" 20 0 "Rain" 3]
      = inr s' /\
    conditions s' = ["Clear"; "Rain"]%string.
Proof.
  destruct (summarize_order_independent pstdev_pair
              [mkForecast "A" 20 0 "Rain" 3; mkForecast "B" 25 5 "Clear" 4]
              [mkForecast "B" 25 5 "Clear" 4; mkForecast "A" 20 0 "Rain" 3]
              _ (perm_swap _ _ []) (summarize_cons _ _ _))
    as [s' [E [K _]]].
  exists s'. split; [exact E | exact K].
Defined.

End SummaryOrder.

(** ** Forecast normalizers *)

Section NormalizerDetails.
Local Open Scope string_scope.

Ltac bind_steps H :=
  repeat (let v := fresh "v" in
          let E := fresh "E" in
          apply bind_inr in H; destruct H as [v [E H]]).

Ltac truthy_response H o r j K J :=
  apply try_except_none_some in H;
  destruct o as [?|r]; cbn [retry_get] in H; [discriminate|];
  destruct (ok r) eqn:K; cbn [negb] in H; [|discriminate];
  unfold response_json in H;
  destruct (body r) as [j|] eqn:J; [|discriminate];
  cbn [bind ret] in H.

Ltac facts :=
  repeat (split; [first [eassumption | reflexivity] |]);
  first [eassumption | reflexivity].

Lemma run_source (w : world) (p : provider) (f : raw_forecast) :
  run w p = inr (Some f) -> r_source f = provider_name p.
Proof.
  destruct p; cbn [run provider_name];
    unfold get_openweather, openweather_body, get_weatherapi,
      weatherapi_body, get_openmeteo, openmeteo_body, get_weatherstack,
      weatherstack_body;
    generalize (outcome w); intros o H.
  - set (o1 := o OpenWeatherMap) in *. clearbody o1.
    truthy_response H o1 r j K J. bind_steps H.
    apply openweather_loop_some in H.
    destruct H as [pre [e [post [_ [_ [_ G]]]]]].
    unfold openweather_entry in G. bind_steps G. now injection G as <-.
  - set (o1 := o WeatherAPI) in *. clearbody o1.
    truthy_response H o1 r j K J. bind_steps H. now injection H as <-.
  - set (o1 := o OpenMeteo) in *. clearbody o1.
    truthy_response H o1 r j K J. bind_steps H.
    match type of H with
    | (if ?b then _ else _) = _ => destruct b; [|discriminate]
    end.
    bind_steps H. now injection H as <-.
  - set (o1 := o Weatherstack) in *. clearbody o1.
    truthy_response H o1 r j K J. bind_steps H. now injection H as <-.
Qed.

(** X13: a forecast carries the name of the provider whose normalizer
    returned it. *)
Theorem normalizer_source (w : world) (p : provider) (f : raw_forecast) :
  run w p = inr (Some f) -> r_source f = provider_name p.
Proof. apply run_source. Qed.

Lemma normalizer_source_witness :
  r_source (mkRaw "Open-Meteo" (JNum 27) (JNum 2.5)
                  (JStr "Storm") (JNum 4.5)) = "Open-Meteo".
Proof.
  apply (normalizer_source degraded_world OpenMeteo). reflexivity.
Defined.

Lemma num_in_storm_codes (code : json) :
  num_in code storm_codes = true <->
  exists q, as_number code = Some q /\ (q == 95 \/ q == 96 \/ q == 99)%Q.
Proof.
  unfold num_in, storm_codes. destruct (as_number code) as [q|].
  - cbn [existsb]. rewrite !orb_true_iff, !Qeq_bool_iff. split.
    + intros H. exists q. split; trivial. intuition discriminate.
    + intros [q' [E H]]. injection E as <-. tauto.
  - split; [discriminate | intros [q [E _]]; discriminate].
Qed.

(** X14: the condition of a forecast of Open-Meteo is "Storm" when the
    weather code at the target hour is 95, 96 or 99 and "Clear or Cloudy"
    for every other code; such a storm forecast is always flagged
    severe. *)
Theorem openmeteo_condition_of_code (t : string) (o : http_outcome)
    (f : raw_forecast) :
  get_openmeteo t o = inr (Some f) ->
  exists r j tm i codes code,
    o = HttpReturns r /\ body r = Some j /\
    hourly j "time" = inr tm /\ index_str tm t = inr i /\
    hourly j "weathercode" = inr codes /\ getindex codes i = inr code /\
    r_condition f = JStr (openmeteo_condition code) /\
    ((exists q, as_number code = Some q /\
                (q == 95 \/ q == 96 \/ q == 99)%Q) ->
       openmeteo_condition code = "Storm" /\
       forall rain wind,
         detect_severe (Some (openmeteo_condition code)) rain wind
           = inr (true, Some storm_msg)) /\
    (~ (exists q, as_number code = Some q /\
                  (q == 95 \/ q == 96 \/ q == 99)%Q) ->
       openmeteo_condition code = "Clear or Cloudy" /\
       forall rain wind,
         detect_severe (Some (openmeteo_condition code)) rain wind
           = inr (by_thresholds rain wind)).
Proof.
  unfold get_openmeteo, openmeteo_body. intros H.
  truthy_response H o r j K J. bind_steps H.
  match type of H with
  | (if ?b then _ else _) = _ => destruct b; [|discriminate]
  end.
  bind_steps H. injection H as <-. cbn [r_condition].
  exists r, j. do 4 eexists.
  split; [reflexivity|]. split; [exact J|].
  split; [eassumption|]. split; [eassumption|].
  split; [eassumption|]. split; [eassumption|].
  split; [reflexivity|].
  unfold openmeteo_condition. split; intros S.
  - apply num_in_storm_codes in S. rewrite S. split; reflexivity.
  - destruct (num_in _ storm_codes) eqn:C.
    + exfalso. apply S. now apply num_in_storm_codes.
    + split; [reflexivity|]. intros rain0 wind0.
      now apply (detect_severe_unfold _ rain0 wind0 false).
Qed.

Lemma openmeteo_condition_of_code_witness :
  exists code, r_condition (mkRaw "Open-Meteo" (JNum 27) (JNum 2.5)
                                  (JStr "Storm") (JNum 4.5))
               = JStr (openmeteo_condition code).
Proof.
  destruct (openmeteo_condition_of_code "2026-11-04T12:00"
              (HttpReturns sample_openmeteo) _ eq_refl)
    as [r [j [tm [i [codes [code H]]]]]].
  exists code. apply H.
Defined.

(** X15: [get_openweather] settles on the first entry of the target day at
    12:00: the forecast is read from that entry alone, and is absent when
    that entry cannot be read, whatever entries follow it. *)
Theorem openweather_first_match (target : string) (r : Response)
    (j l : json) (pre post : list json) (e : json) :
  ok r = true -> body r = Some j ->
  dict_get j "list" (JArr []) = inr l ->
  py_iter l = inr (pre ++ e :: post)%list ->
  Forall (fun x => openweather_match target x = inr false) pre ->
  openweather_match target e = inr true ->
  get_openweather target (HttpReturns r) =
  inr (match openweather_entry e with
       | inr f => Some f
       | inl _ => None
       end).
Proof.
  intros K J L I P M.
  rewrite (get_openweather_entries target r j l _ K J L I).
  rewrite (openweather_loop_skip target pre _ P).
  cbn [openweather_loop]. rewrite M. cbn [bind].
  destruct (openweather_entry e); reflexivity.
Qed.

Lemma openweather_first_match_witness :
  get_openweather "2026-11-04" (HttpReturns sample_openweather) =
  inr (Some (mkRaw "OpenWeatherMap" (JNum 27.1) (JNum 0.5)
                   (JStr "light rain") (JNum 3.6))).
Proof.
  apply (openweather_first_match "2026-11-04" sample_openweather
           _ _ [_] [] _ eq_refl eq_refl eq_refl eq_refl).
  - repeat constructor.
  - reflexivity.
Defined.

(** X16: an entry that cannot be tested (it is no object, has no [dt_txt]
    or a [dt_txt] that is no text) ends the search: when it comes before
    any entry of the target time, the forecast is absent, whatever entries
    follow it. *)
Theorem openweather_unreadable_entry (target : string) (r : Response)
    (j l : json) (pre post : list json) (x : json) (err : exn) :
  body r = Some j ->
  dict_get j "list" (JArr []) = inr l ->
  py_iter l = inr (pre ++ x :: post)%list ->
  Forall (fun y => openweather_match target y = inr false) pre ->
  openweather_match target x = inl err ->
  get_openweather target (HttpReturns r) = inr None.
Proof.
  intros J L I P M. destruct (ok r) eqn:K.
  - rewrite (get_openweather_entries target r j l _ K J L I).
    rewrite (openweather_loop_skip target pre _ P).
    cbn [openweather_loop]. now rewrite M.
  - unfold get_openweather, openweather_body, retry_get. now rewrite K.
Qed.

Lemma openweather_unreadable_entry_witness :
  get_openweather "2026-11-04"
    (HttpReturns (mkResponse 200 (Some (JObj [("list", JArr [
       JObj [("dt_txt", JStr "2026-11-04 09:00:00")];
       JObj [("dt", JNum 1)];
       entry_no_rain])])))) = inr None.
Proof.
  apply (openweather_unreadable_entry "2026-11-04"
           (mkResponse 200 (Some (JObj [("list", JArr [
              JObj [("dt_txt", JStr "2026-11-04 09:00:00")];
              JObj [("dt", JNum 1)];
              entry_no_rain])])))
           (JObj [("list", JArr [
              JObj [("dt_txt", JStr "2026-11-04 09:00:00")];
              JObj [("dt", JNum 1)];
              entry_no_rain])])
           (JArr [JObj [("dt_txt", JStr "2026-11-04 09:00:00")];
                  JObj [("dt", JNum 1)];
                  entry_no_rain])
           [JObj [("dt_txt", JStr "2026-11-04 09:00:00")]]
           [entry_no_rain] (JObj [("dt", JNum 1)]) KeyError
           eq_refl eq_refl eq_refl).
  - repeat constructor.
  - reflexivity.
Defined.

(** X17: [get_weatherapi] reads the second forecast day: with fewer than
    two days in the response the forecast is absent. *)
Theorem weatherapi_needs_two_days (r : Response) (j fc : json)
    (days : list json) :
  body r = Some j ->
  getitem j "forecast" = inr fc ->
  getitem fc "forecastday" = inr (JArr days) ->
  (length days < 2)%nat ->
  get_weatherapi (HttpReturns r) = inr None.
Proof.
  intros J F D L.
  unfold get_weatherapi, weatherapi_body, retry_get, response_json,
    weatherapi_day.
  destruct (ok r); [|reflexivity].
  rewrite J. cbn [negb bind ret]. rewrite F. cbn [bind]. rewrite D.
  cbn [bind getindex].
  destruct (nth_error days 1) eqn:N; [|reflexivity].
  exfalso. assert (nth_error days 1 <> None) as X by congruence.
  apply nth_error_Some in X. lia.
Qed.

Lemma weatherapi_needs_two_days_witness :
  get_weatherapi
    (HttpReturns (mkResponse 200 (Some (JObj [("forecast",
       JObj [("forecastday", JArr [JObj [("day", JObj [])]])])]))))
  = inr None.
Proof.
  apply (weatherapi_needs_two_days
           (mkResponse 200 (Some (JObj [("forecast",
              JObj [("forecastday", JArr [JObj [("day", JObj [])]])])])))
           (JObj [("forecast",
              JObj [("forecastday", JArr [JObj [("day", JObj [])]])])])
           (JObj [("forecastday", JArr [JObj [("day", JObj [])]])])
           [JObj [("day", JObj [])]]
           eq_refl eq_refl eq_refl).
  simpl. lia.
Defined.

(** X18: the rainfall OpenWeatherMap's entry gives is its [rain]["3h"];
    without a [rain] field, or without ["3h"] in it, the rainfall is 0. *)
Theorem openweather_rain_default (m : list (string * json))
    (f : raw_forecast) :
  openweather_entry (JObj m) = inr f ->
  (assoc "rain" m = None -> r_rain f = JNum 0) /\
  (forall rm, assoc "rain" m = Some (JObj rm) -> assoc "3h" rm = None ->
              r_rain f = JNum 0) /\
  (forall rm v, assoc "rain" m = Some (JObj rm) -> assoc "3h" rm = Some v ->
                r_rain f = v).
Proof.
  unfold openweather_entry. intros H.
  apply bind_inr in H. destruct H as [mn [Emain H]].
  apply bind_inr in H. destruct H as [tv [Et H]].
  apply bind_inr in H. destruct H as [rn [Ern H]].
  apply bind_inr in H. destruct H as [r3 [Er3 H]].
  bind_steps H. injection H as <-. cbn [r_rain].
  cbn [dict_get ret] in Ern. injection Ern as <-.
  split; [|split].
  - intros A. rewrite A in Er3. cbn in Er3. now injection Er3 as <-.
  - intros rm A B. rewrite A in Er3. cbn [dict_get ret] in Er3.
    rewrite B in Er3. now injection Er3 as <-.
  - intros rm x A B. rewrite A in Er3. cbn [dict_get ret] in Er3.
    rewrite B in Er3. now injection Er3 as <-.
Qed.

Lemma openweather_rain_default_witness :
  r_rain (mkRaw "OpenWeatherMap" (JNum 27.1) (JNum 0)
                (JStr "clear sky") (JNum 3.6)) = JNum 0.
Proof.
  apply (openweather_rain_default
           [("dt_txt", JStr "2026-11-04 12:00:00");
            ("main", JObj [("temp", JNum 27.1)]);
            ("weather", JArr [JObj [("description", JStr "clear sky")]]);
            ("wind", JObj [("speed", JNum 3.6)])]).
  - reflexivity.
  - reflexivity.
Defined.

End NormalizerDetails.

(** ** Fetch orchestrator *)

Section Batch.
Local Open Scope string_scope.

(** X19: the completion order only permutes the batch: two runs against
    the same provider outcomes return the same forecasts. *)
Theorem fetch_all_order (w : world) (completed completed' : list provider) :
  Permutation completed completed' ->
  Permutation (fetch_all w completed) (fetch_all w completed').
Proof.
  intros P. rewrite !fetch_all_present. now apply Permutation_flat_map.
Qed.

Lemma fetch_all_order_witness :
  Permutation
    (fetch_all degraded_world
       [OpenWeatherMap; WeatherAPI; OpenMeteo; Weatherstack])
    (fetch_all degraded_world
       [Weatherstack; OpenMeteo; WeatherAPI; OpenWeatherMap]).
Proof.
  apply fetch_all_order.
  apply (Permutation_rev
           [OpenWeatherMap; WeatherAPI; OpenMeteo; Weatherstack]).
Defined.

Lemma provider_name_inj (p p' : provider) :
  provider_name p = provider_name p' -> p = p'.
Proof. destruct p, p'; simpl; intros E; try reflexivity; discriminate. Qed.

Lemma present_in (w : world) (p : provider) (f : raw_forecast) :
  In f (present w p) <-> run w p = inr (Some f).
Proof.
  unfold present. destruct (run w p) as [e|[g|]]; simpl.
  - split; [tauto | discriminate].
  - split; [intros [->|[]]; reflexivity | intros E; left; congruence].
  - split; [tauto | discriminate].
Qed.

Lemma fetch_all_in (w : world) (completed : list provider)
    (f : raw_forecast) :
  In f (fetch_all w completed) <->
  exists p, In p completed /\ run w p = inr (Some f).
Proof.
  rewrite fetch_all_present, in_flat_map.
  split; intros [p [I H]]; exists p; split; trivial; now apply present_in.
Qed.

Lemma present_length (w : world) (p : provider) :
  (length (present w p) <= 1)%nat.
Proof. unfold present. destruct (run w p) as [e|[g|]]; simpl; lia. Qed.

(** X20: every forecast of the batch was returned by one of the providers
    run and carries its name; the batch is no longer than the list of
    providers, and when each provider is run once no two forecasts
    of the batch have the same source. *)
Theorem fetch_all_sources (w : world) (completed : list provider) :
  (forall f, In f (fetch_all w completed) ->
     exists p, In p completed /\ run w p = inr (Some f) /\
               r_source f = provider_name p) /\
  (length (fetch_all w completed) <= length completed)%nat /\
  (NoDup completed -> NoDup (map r_source (fetch_all w completed))).
Proof.
  split; [|split].
  - intros f I. apply fetch_all_in in I. destruct I as [p [I R]].
    exists p. repeat split; trivial. now apply (run_source w p).
  - rewrite fetch_all_present.
    induction completed as [|p ps IH]; simpl; trivial.
    rewrite length_app. pose proof (present_length w p). lia.
  - rewrite fetch_all_present.
    induction 1 as [|p ps N D IH]; simpl; [constructor|].
    rewrite map_app. apply NoDup_app; trivial.
    + unfold present. destruct (run w p) as [e|[g|]]; simpl;
        repeat constructor; intros [].
    + intros s I J.
      apply in_map_iff in I. destruct I as [f [<- I]].
      apply present_in in I.
      apply in_map_iff in J. destruct J as [g [E J]].
      apply in_flat_map in J. destruct J as [p' [I' J]].
      apply present_in in J.
      rewrite (run_source w p f I) in E.
      rewrite (run_source w p' g J) in E.
      apply provider_name_inj in E. subst p'. contradiction.
Qed.

Lemma fetch_all_sources_witness :
  NoDup (map r_source
           (fetch_all degraded_world
              [Weatherstack; OpenMeteo; WeatherAPI; OpenWeatherMap])).
Proof.
  apply (fetch_all_sources degraded_world
           [Weatherstack; OpenMeteo; WeatherAPI; OpenWeatherMap]).
  repeat constructor; simpl; intuition discriminate.
Defined.

End Batch.

(** ** The confidence endpoint *)

Section Endpoint.
Local Open Scope string_scope.

Variable pstdev : list Q -> Q.
Variable sample : list string -> nat -> list string.
Variables now lat lon q : string.

Lemma adaptive_recommendation_text (text label : string) :
  exists r, adaptive_recommendation sample (Some text) label = inr r /\
            (label = "Low" -> r = uncertain_msg).
Proof.
  destruct (string_dec label "Low") as [->|N].
  - exists uncertain_msg. split; reflexivity.
  - rewrite (adaptive_recommendation_unfold sample text label N).
    eexists. split; [reflexivity | congruence].
Qed.

Lemma detect_severe_text (text : string) (rain wind : Q) :
  exists b m, detect_severe (Some text) rain wind = inr (b, m) /\
              (b = true <-> m <> None) /\
              (~ storm_or_cyclone text -> rain <= 10 -> wind <= 10 ->
               b = false /\ m = None).
Proof.
  destruct (storm_text_total (Some text)) as [s E].
  rewrite (detect_severe_unfold _ rain wind s E).
  destruct s.
  - do 2 eexists. split; [reflexivity|]. split.
    + split; [discriminate | trivial].
    + intros N. apply storm_text_iff in E. contradiction.
  - unfold by_thresholds.
    destruct (Qltb 10 rain) eqn:R;
      [apply Qltb_lt in R | apply Qltb_ge in R;
       destruct (Qltb 10 wind) eqn:W;
       [apply Qltb_lt in W | apply Qltb_ge in W]];
      do 2 eexists; (split; [reflexivity|]); split.
    all: try (split; [discriminate
                     | intros X; first [reflexivity | now contradiction X]]).
    all: intros _ R' W'; first [split; reflexivity | exfalso; lra].
Qed.

(** The payload built from two forecasts or more. *)
Lemma confidence_two (f1 f2 : forecast) (rest : list forecast) :
  exists s sev rec wm,
    summarize pstdev (f1 :: f2 :: rest) = inr s /\
    detect_severe (Some (condition f1)) (rain f1) (wind f1) = inr sev /\
    adaptive_recommendation sample (Some (condition f1))
      (confidence_label (weighted_confidence f1 f2)) = inr rec /\
    is_max wm (map wind (f1 :: f2 :: rest)) /\
    confidence pstdev sample now lat lon q (f1 :: f2 :: rest) =
    inr (Payload.mk q country (weighted_confidence f1 f2)
           (confidence_label (weighted_confidence f1 f2))
           (RangePair.mk (fst (temp_range s)) (snd (temp_range s)))
           (RangePair.mk (fst (rain_range s)) (snd (rain_range s)))
           (conditions s) wm (fst sev) (snd sev) rec
           (satellite_link lat lon)
           (map source_out (f1 :: f2 :: rest)) now).
Proof.
  destruct (detect_severe_text (condition f1) (rain f1) (wind f1))
    as [b [m [D _]]].
  destruct (adaptive_recommendation_text (condition f1)
              (confidence_label (weighted_confidence f1 f2))) as [r [A _]].
  exists {| temp_range :=
              (fold_left py_min2 (map temp (f2 :: rest)) (temp f1),
               fold_left py_max2 (map temp (f2 :: rest)) (temp f1));
            rain_range :=
              (fold_left py_min2 (map rain (f2 :: rest)) (rain f1),
               fold_left py_max2 (map rain (f2 :: rest)) (rain f1));
            conditions := sorted (condition_set (f1 :: f2 :: rest));
            temp_unc := uncertainty_bounds pstdev
                          (map temp (f1 :: f2 :: rest));
            rain_unc := uncertainty_bounds pstdev
                          (map rain (f1 :: f2 :: rest)) |},
    (b, m), r, (fold_left py_max2 (map wind (f2 :: rest)) (wind f1)).
  split; [apply summarize_cons|]. split; [exact D|]. split; [exact A|].
  split; [apply (fold_max_spec (map wind (f2 :: rest)))|].
  unfold confidence.
  change (length (f1 :: f2 :: rest) <? 2)%nat with false. cbv iota.
  cbn [list_get nth_error bind ret]. rewrite summarize_cons.
  cbn [bind]. rewrite D. cbn [bind]. rewrite A. cbn [bind].
  cbn [map source_out SourceOut.wind py_max bind ret].
  rewrite map_map. cbn [source_out SourceOut.wind]. reflexivity.
Qed.

(** X21: the endpoint answers every batch, and its payload is coherent: the
    confidence lies in [0, 100] and the label is the label of that
    confidence, each range has its minimum below its maximum, the alert is
    present exactly when the severe flag is set, [wind_max] bounds the wind
    of every listed source, and the sources listed are all the forecasts of
    the batch, or none when the batch has fewer than two. *)
Theorem confidence_payload_coherent (forecasts : list forecast) :
  exists p,
    confidence pstdev sample now lat lon q forecasts = inr p /\
    Payload.city p = q /\
    0 <= Payload.confidence p /\ Payload.confidence p <= 100 /\
    Payload.label p = confidence_label (Payload.confidence p) /\
    RangePair.min (Payload.temp_range p)
      <= RangePair.max (Payload.temp_range p) /\
    RangePair.min (Payload.rain_range p)
      <= RangePair.max (Payload.rain_range p) /\
    (Payload.severe p = true <-> Payload.alert p <> None) /\
    Forall (fun s => SourceOut.wind s <= Payload.wind_max p)
           (Payload.sources p) /\
    Payload.sources p =
      (if (length forecasts <? 2)%nat then []
       else map source_out forecasts).
Proof.
  destruct forecasts as [|f1 [|f2 rest]].
  - eexists. split; [reflexivity|]. cbn.
    repeat split; try lra; try discriminate; try constructor.
    intros N. now contradiction N.
  - eexists. split; [reflexivity|]. cbn.
    repeat split; try lra; try discriminate; try constructor.
    intros N. now contradiction N.
  - destruct (confidence_two f1 f2 rest)
      as [s [sev [rec [wm [S [D [A [M E]]]]]]]].
    eexists. split; [exact E|].
    cbn [Payload.city Payload.confidence Payload.label Payload.temp_range
         Payload.rain_range Payload.severe Payload.alert Payload.wind_max
         Payload.sources RangePair.min RangePair.max].
    destruct (weighted_confidence_bounds_aux f1 f2) as [_ [L U]].
    destruct (summarize_inr _ _ _ S) as [_ [T1 [T2 [R1 [R2 _]]]]].
    destruct (detect_severe_text (condition f1) (rain f1) (wind f1))
      as [b [m [D' [I _]]]].
    rewrite D in D'. injection D' as ->.
    split; [reflexivity|]. split; [exact L|]. split; [exact U|].
    split; [reflexivity|].
    split; [exact (min_le_max _ _ _ T1 T2)|].
    split; [exact (min_le_max _ _ _ R1 R2)|].
    split; [exact I|]. split; [|reflexivity].
    destruct M as [_ F]. rewrite Forall_forall in *.
    intros so J. apply in_map_iff in J. destruct J as [f [<- J]].
    cbn [source_out SourceOut.wind]. apply F. now apply in_map.
Qed.

(** X22: a payload labelled "Low" never carries activity suggestions: its
    recommendation is "Forecast uncertain. Try again shortly." when fewer
    than two forecasts arrived and "Forecast uncertain. Prepare for all
    conditions." otherwise, and no suggestion of either list occurs in
    it. *)
Theorem confidence_low_label (forecasts : list forecast) (p : Payload.t) :
  confidence pstdev sample now lat lon q forecasts = inr p ->
  Payload.label p = "Low" ->
  (((length forecasts < 2)%nat /\
    Payload.recommendation p = "Forecast uncertain. Try again shortly.") \/
   ((2 <= length forecasts)%nat /\
    Payload.recommendation p
      = "Forecast uncertain. Prepare for all conditions.")) /\
  forall s, In s (RECOMMENDATIONS_RAINY ++ RECOMMENDATIONS_SUNNY)%list ->
            str_in s (Payload.recommendation p) = false.
Proof.
  intros E L.
  assert (R : Payload.recommendation p
                = "Forecast uncertain. Try again shortly." /\
              (length forecasts < 2)%nat \/
              Payload.recommendation p
                = "Forecast uncertain. Prepare for all conditions." /\
              (2 <= length forecasts)%nat).
  { destruct forecasts as [|f1 [|f2 rest]].
    - injection E as <-. left. split; [reflexivity | simpl; lia].
    - injection E as <-. left. split; [reflexivity | simpl; lia].
    - destruct (confidence_two f1 f2 rest)
        as [s [sev [rec [wm [S [D [A [M E']]]]]]]].
      rewrite E' in E. injection E as <-.
      cbn [Payload.label Payload.recommendation] in *.
      right. split; [|simpl; lia].
      destruct (adaptive_recommendation_text (condition f1)
                  (confidence_label (weighted_confidence f1 f2)))
        as [r [A' U]].
      rewrite A in A'. injection A' as ->. now apply U. }
  split.
  - destruct R as [[R Len]|[R Len]]; [left | right]; now split.
  - intros s I.
    destruct R as [[-> _]|[-> _]];
      cbn [RECOMMENDATIONS_RAINY RECOMMENDATIONS_SUNNY app In] in I;
      repeat (destruct I as [<-|I]; [reflexivity|]); destruct I.
Qed.

(** X23: the severe flag is read off the first forecast of the batch only:
    when that one shows no storm or cyclone and at most 10 of rain and of
    wind, the payload is not severe and has no alert, whatever the other
    forecasts say. *)
Theorem confidence_severity_of_first (f1 f2 : forecast)
    (rest : list forecast) (p : Payload.t) :
  confidence pstdev sample now lat lon q (f1 :: f2 :: rest) = inr p ->
  ~ storm_or_cyclone (condition f1) -> rain f1 <= 10 -> wind f1 <= 10 ->
  Payload.severe p = false /\ Payload.alert p = None.
Proof.
  destruct (confidence_two f1 f2 rest)
    as [s [sev [rec [wm [S [D [A [M E]]]]]]]].
  rewrite E. intros P N R W. injection P as <-.
  cbn [Payload.severe Payload.alert].
  destruct (detect_severe_text (condition f1) (rain f1) (wind f1))
    as [b [m [D' [_ C]]]].
  rewrite D in D'. injection D' as ->. now apply C.
Qed.

End Endpoint.

Lemma confidence_low_label_witness :
  exists p,
    confidence pstdev_pair (fun l n => firstn n l) "" "-18.1" "178.4" "Suva"
      [mkForecast "A" 20 0 "Clear" 3; mkForecast "B" 31 0 "Rain" 4] = inr p /\
    Payload.recommendation p = uncertain_msg.
Proof.
  eexists. split; [reflexivity|].
  destruct (confidence_low_label pstdev_pair (fun l n => firstn n l)
              "" "-18.1" "178.4" "Suva"
              [mkForecast "A" 20 0 "Clear" 3; mkForecast "B" 31 0 "Rain" 4]
              _ eq_refl eq_refl) as [[[L _]|[_ R]] _].
  - simpl in L. lia.
  - exact R.
Defined.

Lemma confidence_severity_of_first_witness :
  exists p,
    confidence pstdev_pair (fun l n => firstn n l) "" "-18.1" "178.4" "Suva"
      [mkForecast "A" 27 0 "Clear" 3; mkForecast "B" 27 40 "Storm" 30]
      = inr p /\
    Payload.severe p = false /\ (10 < Payload.wind_max p)%Q.
Proof.
  eexists. split; [reflexivity|]. split; [|reflexivity].
  apply (confidence_severity_of_first pstdev_pair (fun l n => firstn n l)
           "" "-18.1" "178.4" "Suva"
           (mkForecast "A" 27 0 "Clear" 3) (mkForecast "B" 27 40 "Storm" 30)
           [] _ eq_refl).
  - intros S. apply storm_text_iff in S. discriminate.
  - discriminate.
  - discriminate.
Defined.
